(** * AsgService: start/stop reconciliation of auto-scaling groups

    A shallow embedding of [source/lambda/schedulers/asg_service.py].

    The control plane (the boto3 [autoscaling] client and the [ssm]
    parameter store) is an abstract collaborator: a record of operations
    over a world type [W], each of which may raise.  The service code is
    written in a small state-and-exception monad whose state carries the
    world, the trace of observable events (log records, sleeps, client
    calls) and the pairs produced so far by the generator. *)

From Stdlib Require Import ZArith Ascii String.
From stdpp Require Import gmap strings list fin_maps.

Local Open Scope string_scope.
Local Open Scope list_scope.

(** ** Module constants *)

Definition START_BATCH_SIZE : nat := 5.
Definition STOP_BATCH_SIZE : nat := 50.

Definition ERR_STARTING_ASG_INSTANCES := "Error starting asg instances {}, ({})".
Definition ERR_STOPPING_ASG_INSTANCES := "Error stopping asg instances {}, ({})".
Definition INF_ADD_KEYS := "Adding {} key(s) {} to asg instance(s) {}".
Definition INFO_REMOVING_KEYS := "Removing {} key(s) {} from asg instance(s) {}".
Definition WARN_STARTED_ASG_INSTANCES_TAGGING :=
  "Error deleting or creating tags for started asg {} ({})".
Definition WARN_STOPPED_ASG_INSTANCES_TAGGING :=
  "Error deleting or creating tags for stopped asg {} ({})".
Definition WARNING_ASG_INSTANCE_NOT_STARTING := "ASG instance {} is not started".
Definition WARNING_ASG_INSTANCE_NOT_STOPPING := "ASG instance {} is not stopped".

Definition ASG_STATE_RUNNING := "running".
Definition ASG_STATE_TERMINATED := "stopped".
Definition ASG_SCHEDULABLE_STATES : list string :=
  [ASG_STATE_RUNNING; ASG_STATE_TERMINATED].
Definition ASG_STOPPED_STATES : list string := [ASG_STATE_TERMINATED].
Definition ASG_STARTED_STATES : list string := [ASG_STATE_RUNNING].

(** Modelled from the spec: the two constants of
    [configuration.instance_schedule.InstanceSchedule], a module that the
    service imports; the reached state is one of running and stopped. *)
Definition STATE_RUNNING := "running".
Definition STATE_STOPPED := "stopped".

(** ** Data *)

(** A tag specification [{"Key": k, "Value": v}]. *)
Record tag := Tag { Key : string; Value : string }.

(** One element of [AutoScalingGroups] in a describe response; [Instances]
    keeps the [LifecycleState] of every instance of the group. *)
Record asg_raw := AsgRaw {
  raw_name : string;
  raw_desired_capacity : Z;
  raw_min_size : Z;
  raw_instances : list string;
  raw_tags : option (list tag)
}.

(** What the multiselect of the discovery query makes of a group.  It
    emits every key of the hash: [sel_tags] is null ([None]) for a
    group that is described without tags. *)
Record asg_selection := AsgSelection {
  sel_name : string;
  sel_desired_capacity : Z;
  sel_min_size : Z;
  sel_instance_number : nat;
  sel_tags : option (list tag)
}.

(** The dictionary [_select_instance_data] reads: an element of the
    result of the discovery query.  [Tags] is a list, or the key is
    missing ([None]). *)
Record asg_descr := AsgDescr {
  AutoScalingGroupName : string;
  DesiredCapacity : Z;
  MinSize : Z;
  InstanceNumber : nat;
  Tags : option (list tag)
}.

(** The projection the status query makes of a group. *)
Record asg_count := AsgCount {
  cnt_name : string;
  cnt_instance_number : nat
}.

(** An element of the list [get_asg_status] returns. *)
Record asg_status := AsgStatus {
  st_name : string;
  State : string
}.

(** The dictionary [_select_instance_data] builds. *)
Record asg_data := AsgData {
  INST_ID : string;
  INST_NAME : string;
  INST_ASG_DESIRED_CAPACITY : Z;
  INST_ASG_MIN_SIZE : Z;
  INST_SCHEDULE : option string;
  INST_STATE : string;
  INST_ALLOW_RESIZE : bool;
  INST_IS_RUNNING : bool;
  INST_IS_TERMINATED : bool;
  INST_CURRENT_STATE : string;
  INST_MAINTENANCE_WINDOW : option string;
  INST_INSTANCE_TYPE : string;
  INST_ASG_IS_ECS : string;
  INST_TAGS : gmap string string
}.

(** The objects the outer scheduler hands to [stop_instances] and
    [start_instances]; the service reads two attributes of them. *)
Record Instance := { id : string; asg_is_ecs : string }.

(** An entry of the per-group scaling configuration. *)
Record scaling := { desired_capacity : Z; min_size : Z }.

Record config := {
  tag_name : string;
  started_tags : option (list tag);
  stopped_tags : option (list tag)
}.

Record kwargs := {
  PARAM_STOPPED_INSTANCES : list Instance;
  PARAM_STARTED_INSTANCES : list Instance;
  PARAM_CONFIG : config;
  PARAM_ASG_CONF : gmap string scaling
}.

(** Python exceptions the code can meet.  [ClientError] is botocore's; the
    others are all subclasses of [Exception]. *)
Inductive exn :=
| ClientError (msg : string)
| IndexError
| ValueError
| TypeError
| OtherException (msg : string).

Definition is_ClientError (e : exn) : bool :=
  match e with ClientError _ => true | _ => false end.

Definition str_exn (e : exn) : string :=
  match e with
  | ClientError m => m
  | IndexError => "list index out of range"
  | ValueError => "invalid literal for int()"
  | TypeError => "'NoneType' object is not iterable"
  | OtherException m => m
  end.

(** A value that is either a Python [str] or a Python [int]. *)
Inductive pyval := PStr (s : string) | PInt (z : Z).

(** ** Observable events *)

Inductive level := INFO | WARNING | ERROR.

Inductive arg :=
| AStr (s : string)
| AList (l : list string)
| ATags (l : list tag)
| AVal (v : pyval)
| AInst (i : Instance)
| AData (d : asg_data).

Inductive call :=
| DescribeAutoScalingGroups (names : list string)
| UpdateAutoScalingGroup (name : string) (desired min : Z)
| DescribeLifecycleHooks (name : string)
| PutLifecycleHook (name hook : string) (timeout : Z)
| DeleteTags (resource key : string)
| CreateOrUpdateTags (resource key value : string) (propagate : bool)
| GetParameter (path : string) (decrypt : bool).

Inductive event :=
| Log (lv : level) (fmt : string) (args : list arg)
| Sleep (secs : nat)
| Call (c : call).

(** ** Pure helpers *)

(** [sep.join(l)] *)
Fixpoint join (sep : string) (l : list string) : string :=
  match l with
  | [] => ""
  | [x] => x
  | x :: l' => x +:+ sep +:+ join sep l'
  end.

(** The characters of a string, as Python iterates over it. *)
Fixpoint chars (s : string) : list string :=
  match s with
  | EmptyString => []
  | String c s' => String c EmptyString :: chars s'
  end.

(** jmespath [contains(s, sub)] on strings. *)
Fixpoint contains (s sub : string) : bool :=
  String.prefix sub s ||
  match s with
  | EmptyString => false
  | String _ s' => contains s' sub
  end.

(** [{tag["Key"]: tag["Value"] for tag in l}]: a later key overwrites. *)
Definition dict_of_tags (l : list tag) : gmap string string :=
  foldl (fun m t => <[Key t := Value t]> m) ∅ l.

Definition mem (x : string) (l : list string) : bool :=
  bool_decide (x ∈ l).

(** *** [instance_batches] *)

(** The loop of the generator, with the buffer as it stands on entry. *)
Fixpoint batches_from {A} (buffer : list A) (l : list A) (size : nat)
  : list (list A) :=
  match l with
  | [] => if bool_decide (0 < length buffer) then [buffer] else []
  | x :: l' =>
      let buffer' := buffer ++ [x] in
      if bool_decide (length buffer' = size)
      then buffer' :: batches_from [] l' size
      else batches_from buffer' l' size
  end.

Definition instance_batches {A} (asg_instances : list A) (size : nat)
  : list (list A) :=
  batches_from [] asg_instances size.

(** *** The two query projections *)

Definition in_service (l : list string) : nat :=
  length (filter (fun s => s = "InService") l).

(** [{AutoScalingGroupName:AutoScalingGroupName,
      InstanceNumber:length(Instances[?LifecycleState=='InService'])}] *)
Definition project_status (g : asg_raw) : asg_count :=
  AsgCount (raw_name g) (in_service (raw_instances g)).

Definition jmes_status (resp : list asg_raw) : list asg_count :=
  map project_status resp.

(** The same with [DesiredCapacity], [MinSize] and [Tags]; the key
    [Tags] is always there, with null for a group without tags. *)
Definition project_discovery (g : asg_raw) : asg_selection :=
  AsgSelection (raw_name g) (raw_desired_capacity g) (raw_min_size g)
               (in_service (raw_instances g)) (raw_tags g).

Definition has_key (k : string) (l : list tag) : bool :=
  mem k (map Key l).

(** A selection whose [Tags] is a list, as the dictionary that
    [_select_instance_data] reads.  A selection whose [Tags] is null is
    none: the code iterates over the value of the key and raises on
    null, and no such selection passes [[?Tags]]. *)
Definition as_descr (p : asg_selection) : option asg_descr :=
  match sel_tags p with
  | Some l => Some (AsgDescr (sel_name p) (sel_desired_capacity p)
                             (sel_min_size p) (sel_instance_number p) (Some l))
  | None => None
  end.

(** The tag name is pasted between two apostrophes into the text of the
    discovery query.  The apostrophes quote it as it stands when it
    holds no apostrophe and no backslash; with another name the text is
    another query, or none. *)
Definition quotable (tagname : string) : bool :=
  forallb (fun c => negb (Ascii.eqb c "039"%char || Ascii.eqb c "092"%char))
          (list_ascii_of_string tagname).

(** The discovery projection, piped through [[?Tags]] and
    [[?contains(Tags[*].Key, 'tagname')]], for a tag name that is
    [quotable]. *)
Definition jmes_discovery (tagname : string) (resp : list asg_raw)
  : list asg_descr :=
  let truthy p := match sel_tags p with Some (_ :: _) => true | _ => false end in
  let tagged p := match sel_tags p with
                  | Some l => has_key tagname l
                  | None => false
                  end in
  omap as_descr
       (List.filter tagged (List.filter truthy (map project_discovery resp))).

(** The loop body of [get_asg_status]. *)
Definition status_of (i : asg_count) : asg_status :=
  let state := if bool_decide (cnt_instance_number i = 0)
               then "stopped" else "running" in
  AsgStatus (cnt_name i) state.

Definition is_in_schedulable_state (asg : asg_data) : bool :=
  mem (INST_STATE asg) ASG_SCHEDULABLE_STATES.

Definition is_in_stopped_state (state : string) : bool :=
  mem state ASG_STOPPED_STATES.

Definition is_in_started_state (state : string) : bool :=
  mem state ASG_STARTED_STATES.

(** ** The control plane and the monad of the service *)

Inductive result (A : Type) :=
| Ok (a : A)
| Raise (e : exn).
Arguments Ok {A} a.
Arguments Raise {A} e.

(** The retrying [autoscaling] client and the [ssm] client, as operations
    on a world [W].  [elapse] is what [time.sleep] lets happen to the world. *)
Record Client (W : Type) := {
  describe_auto_scaling_groups_with_retries :
    list string -> W -> W * result (list asg_raw);
  update_auto_scaling_group : string -> Z -> Z -> W -> W * result unit;
  describe_lifecycle_hooks : string -> W -> W * result (list string);
  put_lifecycle_hook : string -> string -> Z -> W -> W * result unit;
  delete_tags_with_retries : string -> string -> W -> W * result unit;
  create_or_update_tags_with_retries :
    string -> string -> string -> bool -> W -> W * result unit;
  get_parameter : string -> bool -> W -> W * result string;
  elapse : nat -> W -> W
}.
Arguments describe_auto_scaling_groups_with_retries {W} _ _ _.
Arguments update_auto_scaling_group {W} _ _ _ _ _.
Arguments describe_lifecycle_hooks {W} _ _ _.
Arguments put_lifecycle_hook {W} _ _ _ _ _.
Arguments delete_tags_with_retries {W} _ _ _ _.
Arguments create_or_update_tags_with_retries {W} _ _ _ _ _ _.
Arguments get_parameter {W} _ _ _ _.
Arguments elapse {W} _ _ _.

Record state (W : Type) := St {
  world : W;
  trace : list event;
  yielded : list (string * string)
}.
Arguments St {W} _ _ _.
Arguments world {W} _.
Arguments trace {W} _.
Arguments yielded {W} _.

(** What the body of a [for] loop tells the loop: go on, or [break]. *)
Inductive ctl (A : Type) :=
| Next (a : A)
| Break.
Arguments Next {A} a.
Arguments Break {A}.

Section Monad.
Context {W : Type}.

Definition M (A : Type) : Type := state W -> state W * result A.

Definition ret {A} (a : A) : M A := fun s => (s, Ok a).

Definition raise {A} (e : exn) : M A := fun s => (s, Raise e).

Definition bind {A B} (c : M A) (k : A -> M B) : M B :=
  fun s => match c s with
           | (s', Ok a) => k a s'
           | (s', Raise e) => (s', Raise e)
           end.

(** [try: c  except <catches> as e: h e] *)
Definition try_except {A} (c : M A) (catches : exn -> bool) (h : exn -> M A)
  : M A :=
  fun s => match c s with
           | (s', Raise e) => if catches e then h e s' else (s', Raise e)
           | r => r
           end.

(** Runs [c] and hands back how it ended; for a [try] block that assigns
    local variables before it raises. *)
Definition attempt {A} (c : M A) : M (result A) :=
  fun s => match c s with (s', r) => (s', Ok r) end.

Definition emit (e : event) : M unit :=
  fun s => (St (world s) (trace s ++ [e]) (yielded s), Ok tt).

Definition log (lv : level) (fmt : string) (args : list arg) : M unit :=
  emit (Log lv fmt args).

Definition yield (p : string * string) : M unit :=
  fun s => (St (world s) (trace s) (yielded s ++ [p]), Ok tt).

Definition on_world {A} (op : W -> W * result A) : M A :=
  fun s => match op (world s) with
           | (w, r) => (St w (trace s) (yielded s), r)
           end.
End Monad.

Declare Scope service_scope.
Delimit Scope service_scope with M.
Notation "x <- c ; k" := (bind c (fun x => k))
  (at level 20, c at level 100, k at level 200, only parsing) : service_scope.
Notation "c ;; k" := (bind c (fun _ => k))
  (at level 100, k at level 200, only parsing, right associativity)
  : service_scope.
Local Open Scope service_scope.

Section Loops.
Context {W : Type}.

Fixpoint for_each {A} (l : list A) (body : A -> M (W:=W) unit) : M unit :=
  match l with
  | [] => ret tt
  | x :: l' => body x ;; for_each l' body
  end.

(** A loop that reassigns one local variable. *)
Fixpoint for_acc {A B} (l : list A) (acc : B) (body : B -> A -> M (W:=W) B)
  : M B :=
  match l with
  | [] => ret acc
  | x :: l' => acc' <- body acc x; for_acc l' acc' body
  end.

(** A loop whose body may [break]. *)
Fixpoint for_break {A} (l : list A) (body : A -> M (W:=W) (ctl unit))
  : M unit :=
  match l with
  | [] => ret tt
  | x :: l' =>
      c <- body x;
      match c with
      | Break => ret tt
      | Next _ => for_break l' body
      end
  end.
End Loops.

(** ** The service *)

Definition dquote : string := String "034"%char EmptyString.

(** ["\"{}\"".format(k)] *)
Definition quoted (k : string) : string := dquote +:+ k +:+ dquote.

Section AsgService.
Context {W : Type}.
Variable client : Client W.

(** Python's [int] on a [str]; [None] where it raises [ValueError]. *)
Variable int_of_str : string -> option Z.

(** [i == s] for an object [i] of the scheduler's instance class and a
    [str]; the class is declared outside this file. *)
Variable instance_eq_str : Instance -> string -> bool.

(** [self.allow_resize], set to [False] by [__init__]. *)
Definition allow_resize : bool := false.

Local Abbreviation M := (M (W:=W)).

(** *** Client calls, each recorded in the trace *)

Definition invoke {A} (c : call) (op : W -> W * result A) : M A :=
  emit (Call c) ;; on_world op.

Definition call_describe (names : list string) : M (list asg_raw) :=
  invoke (DescribeAutoScalingGroups names)
         (describe_auto_scaling_groups_with_retries client names).

Definition call_update (name : string) (desired min : Z) : M unit :=
  invoke (UpdateAutoScalingGroup name desired min)
         (update_auto_scaling_group client name desired min).

Definition call_describe_hooks (name : string) : M (list string) :=
  invoke (DescribeLifecycleHooks name) (describe_lifecycle_hooks client name).

Definition call_put_hook (name hook : string) (timeout : Z) : M unit :=
  invoke (PutLifecycleHook name hook timeout)
         (put_lifecycle_hook client name hook timeout).

Definition call_delete_tags (resource key : string) : M unit :=
  invoke (DeleteTags resource key)
         (delete_tags_with_retries client resource key).

Definition call_create_or_update_tags (resource key value : string)
           (propagate : bool) : M unit :=
  invoke (CreateOrUpdateTags resource key value propagate)
         (create_or_update_tags_with_retries client resource key value propagate).

Definition call_get_parameter (path : string) (decrypt : bool) : M string :=
  invoke (GetParameter path decrypt) (get_parameter client path decrypt).

(** [time.sleep(secs)] *)
Definition sleep (secs : nat) : M unit :=
  emit (Sleep secs) ;; on_world (fun w => (elapse client secs w, Ok tt)).

(** [l[0]] *)
Definition index0 {A} (l : list A) : M A :=
  match l with
  | [] => raise IndexError
  | x :: _ => ret x
  end.

(** [int(v)] *)
Definition int (v : pyval) : M Z :=
  match v with
  | PInt z => ret z
  | PStr s => match int_of_str s with
              | Some z => ret z
              | None => raise ValueError
              end
  end.

(** *** Discovery: [_select_instance_data] *)

Definition _select_instance_data (asg : asg_descr) (tagname : string)
  : M asg_data :=
  let tags := match Tags asg with
              | Some l => dict_of_tags l
              | None => ∅
              end in
  let id := AutoScalingGroupName asg in
  let name := AutoScalingGroupName asg in
  let schedule_name := tags !! tagname in
  let desired_capacity := DesiredCapacity asg in
  let min_size := MinSize asg in
  let instance_number := InstanceNumber asg in
  let instance_type := "asg" in
  let maintenance_window_schedule : option string := None in
  let asg_is_ecs :=
    if bool_decide (tags !! "aws:cloudformation:logical-id"
                    = Some "ECSAutoScalingGroup")
    then "true" else "false" in
  let state := if bool_decide (instance_number = 0)
               then ASG_STATE_TERMINATED else ASG_STATE_RUNNING in
  let is_running := bool_decide (ASG_STATE_RUNNING = state) in
  let is_terminated := bool_decide (state = ASG_STATE_TERMINATED) in
  let asg_data := {|
    INST_ID := id;
    INST_NAME := name;
    INST_ASG_DESIRED_CAPACITY := desired_capacity;
    INST_ASG_MIN_SIZE := min_size;
    INST_SCHEDULE := schedule_name;
    INST_STATE := state;
    INST_ALLOW_RESIZE := allow_resize;
    INST_IS_RUNNING := is_running;
    INST_IS_TERMINATED := is_terminated;
    INST_CURRENT_STATE := if is_running then STATE_RUNNING else STATE_STOPPED;
    INST_MAINTENANCE_WINDOW := maintenance_window_schedule;
    INST_INSTANCE_TYPE := instance_type;
    INST_ASG_IS_ECS := asg_is_ecs;
    INST_TAGS := tags
  |} in
  log INFO "Displaying asg data {}" [AData asg_data] ;;
  ret asg_data.

(** *** Status and lifecycle hooks *)

Definition get_asg_status (asg_ids : list string) : M (list asg_status) :=
  status_resp <- call_describe asg_ids;
  ret (map status_of (jmes_status status_resp)).

(** [[i["AutoScalingGroupName"] for i in self.get_asg_status(client, ids)]] *)
Definition status_names (asg_ids : list string) : M (list string) :=
  status <- get_asg_status asg_ids;
  ret (map st_name status).

Definition get_asg_termination_lifecycle_hook_name (asg : string)
  : M (list string) :=
  resp <- call_describe_hooks asg;
  ret (List.filter (fun h => contains h "Termination") resp).

Definition get_asg_termination_lifecycle_hook_timeout (asg : string)
  : M pyval :=
  try_except
    (v <- call_get_parameter
            ("/ecs/" +:+ asg +:+ "/lifecyclehook/heatbeat/timeout") true;
     ret (PStr v))
    is_ClientError
    (fun e =>
       log ERROR
           "Error whiling getting the {} lifecyclehook heatbeat timeout : {}"
           [AStr asg; AStr (str_exn e)] ;;
       ret (PInt 300)).

(** *** Tag bookkeeping and the report of a reached state

    The [try] block that deletes and creates the transition tags of the
    groups in [names] ([transition_tag_calls] is what the [try] encloses),
    followed by the loop that yields them.  The source has it four times
    (stopped ECS, stopped plain, started ECS, started plain); the copies
    differ in the warning format, in the two labels and in the state they
    yield. *)

Definition transition_tag_calls (remove_label add_label : string)
           (names remove_keys : list string) (add_tags : list tag) : M unit :=
  (if bool_decide (0 < length remove_keys) then
     log INFO INFO_REMOVING_KEYS
         [AStr remove_label;
          AStr (join "," (map quoted remove_keys));
          AStr (join "," names)] ;;
     for_each names (fun asg =>
       for_each remove_keys (fun k => call_delete_tags asg k))
   else ret tt) ;;
  (if bool_decide (0 < length add_tags) then
     log INFO INF_ADD_KEYS
         [AStr add_label; ATags add_tags; AStr (join "," names)] ;;
     for_each names (fun asg =>
       for_each add_tags (fun k =>
         call_create_or_update_tags asg (Key k) (Value k) false))
   else ret tt).

Definition apply_transition_tags (warn_fmt remove_label add_label : string)
           (names remove_keys : list string) (add_tags : list tag) : M unit :=
  try_except
    (transition_tag_calls remove_label add_label names remove_keys add_tags)
    (fun _ => true)
    (fun ex => log WARNING warn_fmt [AStr (join "," names); AStr (str_exn ex)]).

Definition tag_and_yield (warn_fmt remove_label add_label reached : string)
           (names remove_keys : list string) (add_tags : list tag) : M unit :=
  if bool_decide (0 < length names) then
    apply_transition_tags warn_fmt remove_label add_label
                          names remove_keys add_tags ;;
    for_each names (fun i => yield (i, reached))
  else ret tt.

(** The two id lists of a batch. *)
Definition is_ecs (i : Instance) : bool := String.eqb (asg_is_ecs i) "true".

Definition ecs_ids_of (asg_instance : list Instance) : list string :=
  map id (List.filter is_ecs asg_instance).

Definition plain_ids_of (asg_instance : list Instance) : list string :=
  map id (List.filter (fun i => negb (is_ecs i)) asg_instance).

Definition instance_in (i : Instance) (l : list string) : bool :=
  existsb (instance_eq_str i) l.

(** *** [stop_instances] *)

(** The first [try] of the ECS loop: the termination hook is given the
    heartbeat timeout of the parameter store. *)
Definition prepare_for_stop (asg : string) : M unit :=
  try_except
    (hooks <- get_asg_termination_lifecycle_hook_name asg;
     LifecycleHookName <- index0 hooks;
     HeartbeatTimeout <- get_asg_termination_lifecycle_hook_timeout asg;
     log INFO "Displaying the LifecycleHook HeartbeatTimeout : {}"
         [AVal HeartbeatTimeout] ;;
     timeout <- int HeartbeatTimeout;
     call_put_hook asg LifecycleHookName timeout)
    is_ClientError
    (fun e =>
       log ERROR
           "Error whiling updating the termination lifecycle hook heartbeat timeout : {}"
           [AStr (str_exn e)]).

(** The [try] that scales one group to zero and re-reads the status of
    its subset; [found] is the list as it stands before. *)
Definition scale_down (ids found : list string) (asg : string)
  : M (list string) :=
  try_except
    (call_update asg 0 0 ;;
     status_names ids)
    (fun _ => true)
    (fun ex =>
       log ERROR ERR_STOPPING_ASG_INSTANCES
           [AStr (join "," (chars asg)); AStr (str_exn ex)] ;;
       ret found).

Definition stop_ecs (asg_ecs_ids : list string) : M (list string) :=
  if bool_decide (length asg_ecs_ids ≠ 0) then
    for_acc asg_ecs_ids [] (fun found asg =>
      prepare_for_stop asg ;;
      scale_down asg_ecs_ids found asg)
  else
    log INFO "No affected ECS found..." [] ;;
    ret [].

Definition stop_plain (asg_ids : list string) : M (list string) :=
  if bool_decide (length asg_ids ≠ 0) then
    for_acc asg_ids [] (fun found asg => scale_down asg_ids found asg)
  else
    log INFO "No affected ASG found..." [] ;;
    ret [].

(** One of the two [if] blocks under "Status to verify". *)
Definition verify_stopped (asg_instance : list Instance)
           (ids found : list string) (get_status_count : nat)
  : M (ctl (list string * nat)) :=
  if bool_decide (length found < length ids) then
    sleep 5 ;;
    found' <- status_names ids;
    if bool_decide (length found' = length asg_instance) then ret Break
    else
      let get_status_count' := get_status_count + 1 in
      if bool_decide (3 < get_status_count') then
        for_each asg_instance (fun i =>
          if negb (instance_in i found')
          then log WARNING WARNING_ASG_INSTANCE_NOT_STOPPING [AInst i]
          else ret tt) ;;
        ret Break
      else ret (Next (found', get_status_count'))
  else ret (Next (found, get_status_count)).

(** The body of the loop over the batches. *)
Definition stop_batch (start_tags_keys : list string) (stop_tags : list tag)
           (asg_instance : list Instance) : M (ctl unit) :=
  let asg_ids := plain_ids_of asg_instance in
  let asg_ecs_ids := ecs_ids_of asg_instance in
  log INFO "asg_ids : {}" [AList asg_ids] ;;
  log INFO "asg_ecs_ids : {}" [AList asg_ecs_ids] ;;
  asg_instances_ecs_stopped <- stop_ecs asg_ecs_ids;
  asg_instances_stopped <- stop_plain asg_ids;
  let get_status_count := 0 in
  v1 <- verify_stopped asg_instance asg_ecs_ids asg_instances_ecs_stopped
                       get_status_count;
  match v1 with
  | Break => ret Break
  | Next (asg_instances_ecs_stopped, get_status_count) =>
      v2 <- verify_stopped asg_instance asg_ids asg_instances_stopped
                           get_status_count;
      match v2 with
      | Break => ret Break
      | Next (asg_instances_stopped, _) =>
          tag_and_yield WARN_STOPPED_ASG_INSTANCES_TAGGING "start" "stop"
                        STATE_STOPPED asg_instances_ecs_stopped
                        start_tags_keys stop_tags ;;
          tag_and_yield WARN_STOPPED_ASG_INSTANCES_TAGGING "start" "stop"
                        STATE_STOPPED asg_instances_stopped
                        start_tags_keys stop_tags ;;
          ret (Next tt)
      end
  end.

(** [[t["Key"] for t in tags if t["Key"] not in other_keys]]; iterating
    [None] raises. *)
Definition keys_not_in (tags : option (list tag)) (other_keys : list string)
  : M (list string) :=
  match tags with
  | None => raise TypeError
  | Some l =>
      ret (map Key (List.filter (fun t => negb (mem (Key t) other_keys)) l))
  end.

Definition stop_instances (kw : kwargs) : M unit :=
  let stopped_asg_instances := PARAM_STOPPED_INSTANCES kw in
  let stop_tags := match stopped_tags (PARAM_CONFIG kw) with
                   | None => []
                   | Some l => l
                   end in
  let stop_tags_keys := map Key stop_tags in
  start_tags_keys <- keys_not_in (started_tags (PARAM_CONFIG kw)) stop_tags_keys;
  for_break (instance_batches stopped_asg_instances STOP_BATCH_SIZE)
            (stop_batch start_tags_keys stop_tags).

(** *** [start_instances] *)

(** The first [try] of the ECS loop: the termination hook gets a fixed
    heartbeat timeout. *)
Definition prepare_for_start (asg : string) : M unit :=
  try_except
    (hooks <- get_asg_termination_lifecycle_hook_name asg;
     LifecycleHookName <- index0 hooks;
     call_put_hook asg LifecycleHookName 3600)
    is_ClientError
    (fun e =>
       log ERROR
           "Error whiling updating the termination lifecycle hook heartbeat timeout : {}"
           [AStr (str_exn e)]).

(** [for key, value in asg_conf.items(): if key == asg: ...], inside its
    [try]: the loop stops at the first exception and keeps what it had
    assigned to the list of started groups. *)
Fixpoint scale_items (items : list (string * scaling))
         (ids found : list string) (asg : string)
  : M (list string * option exn) :=
  match items with
  | [] => ret (found, None)
  | (key, value) :: items' =>
      if String.eqb key asg then
        r <- attempt (call_update asg (desired_capacity value) (min_size value) ;;
                      status_names ids);
        match r with
        | Raise ex => ret (found, Some ex)
        | Ok found' => scale_items items' ids found' asg
        end
      else scale_items items' ids found asg
  end.

Definition scale_up (asg_conf : gmap string scaling)
           (ids found : list string) (asg : string) : M (list string) :=
  r <- scale_items (map_to_list asg_conf) ids found asg;
  match r with
  | (found', None) => ret found'
  | (found', Some ex) =>
      log ERROR ERR_STARTING_ASG_INSTANCES
          [AStr (join "," (chars asg)); AStr (str_exn ex)] ;;
      ret found'
  end.

Definition start_ecs (asg_conf : gmap string scaling)
           (asg_ecs_ids : list string) : M (list string) :=
  if bool_decide (length asg_ecs_ids ≠ 0) then
    for_acc asg_ecs_ids [] (fun found asg =>
      prepare_for_start asg ;;
      scale_up asg_conf asg_ecs_ids found asg)
  else
    log INFO "No affected ECS found..." [] ;;
    ret [].

Definition start_plain (asg_conf : gmap string scaling)
           (asg_ids : list string) : M (list string) :=
  if bool_decide (length asg_ids ≠ 0) then
    for_acc asg_ids [] (fun found asg => scale_up asg_conf asg_ids found asg)
  else
    log INFO "No affected ASG found..." [] ;;
    ret [].

(** One of the two [if] blocks after [get_status_count = 0]; the status
    is not read again here. *)
Definition verify_started (ids found : list string) (get_status_count : nat)
  : M (ctl nat) :=
  if bool_decide (length found < length ids) then
    sleep 5 ;;
    if bool_decide (length found = length ids) then ret Break
    else
      let get_status_count' := get_status_count + 1 in
      if bool_decide (3 < get_status_count') then
        for_each ids (fun i =>
          if negb (mem i found)
          then log WARNING WARNING_ASG_INSTANCE_NOT_STARTING [AStr i]
          else ret tt) ;;
        ret Break
      else ret (Next get_status_count')
  else ret (Next get_status_count).

Definition start_batch (asg_conf : gmap string scaling)
           (stop_tags_keys : list string) (start_tags : list tag)
           (asg_instance : list Instance) : M (ctl unit) :=
  let asg_ids := plain_ids_of asg_instance in
  let asg_ecs_ids := ecs_ids_of asg_instance in
  asg_instances_ecs_started <- start_ecs asg_conf asg_ecs_ids;
  asg_instances_started <- start_plain asg_conf asg_ids;
  let get_status_count := 0 in
  v1 <- verify_started asg_ecs_ids asg_instances_ecs_started get_status_count;
  match v1 with
  | Break => ret Break
  | Next get_status_count =>
      v2 <- verify_started asg_ids asg_instances_started get_status_count;
      match v2 with
      | Break => ret Break
      | Next _ =>
          tag_and_yield WARN_STARTED_ASG_INSTANCES_TAGGING "stop" "start"
                        STATE_RUNNING asg_instances_ecs_started
                        stop_tags_keys start_tags ;;
          tag_and_yield WARN_STARTED_ASG_INSTANCES_TAGGING "stop" "start"
                        STATE_RUNNING asg_instances_started
                        stop_tags_keys start_tags ;;
          ret (Next tt)
      end
  end.

Definition start_instances (kw : kwargs) : M unit :=
  let asg_instances_to_start := PARAM_STARTED_INSTANCES kw in
  let start_tags := match started_tags (PARAM_CONFIG kw) with
                    | None => []
                    | Some l => l
                    end in
  let asg_conf := PARAM_ASG_CONF kw in
  let start_tags_keys := map Key start_tags in
  stop_tags_keys <- keys_not_in (stopped_tags (PARAM_CONFIG kw)) start_tags_keys;
  for_break (instance_batches asg_instances_to_start START_BATCH_SIZE)
            (start_batch asg_conf stop_tags_keys start_tags).

End AsgService.

(** The initial state of a call: nothing logged, nothing yielded. *)
Definition init {W} (w : W) : state W := St w [] [].

(** ** Specifications of computations

    [within P Y Q c]: from any state, [c] only appends to the trace, and
    what it appends satisfies [P]; it only appends to the yielded pairs,
    and what it appends satisfies [Y]; and a value it returns satisfies
    [Q]. *)

Section Specifications.
Context {W : Type}.

Definition extends {A} (P : event -> Prop) (Y : string * string -> Prop)
           (Q : A -> Prop) (s : state W) (out : state W * result A) : Prop :=
  (exists new, trace out.1 = trace s ++ new /\ Forall P new)
  /\ (exists ys, yielded out.1 = yielded s ++ ys /\ Forall Y ys)
  /\ (forall a, out.2 = Ok a -> Q a).

Definition within {A} P Y (Q : A -> Prop) (c : M (W:=W) A) : Prop :=
  forall s, extends P Y Q s (c s).

Definition is_ok {A} (r : result A) : Prop :=
  match r with
  | Ok _ => True
  | Raise _ => False
  end.

(** [appends c l]: when [c] ends without an exception, what it has added
    to the trace is [l]. *)
Definition appends {A} (c : M (W:=W) A) (l : list event) : Prop :=
  forall s, is_ok (c s).2 -> trace (c s).1 = trace s ++ l.

(** [preserves I c]: [c] takes a state that satisfies [I] to one that
    does. *)
Definition preserves {A} (I : state W -> Prop) (c : M (W:=W) A) : Prop :=
  forall s, I s -> I (c s).1.

End Specifications.

(** ** The tags the calls of a trace leave behind

    The tags of the groups, as a map from (group, key) to (value,
    propagate-at-launch), and what the tagging calls of the API do to it. *)

Definition replay_call (c : call) (T : gmap (string * string) (string * bool))
  : gmap (string * string) (string * bool) :=
  match c with
  | DeleteTags resource key => delete (resource, key) T
  | CreateOrUpdateTags resource key value propagate =>
      <[(resource, key) := (value, propagate)]> T
  | _ => T
  end.

Definition replay_event (T : gmap (string * string) (string * bool)) (e : event)
  : gmap (string * string) (string * bool) :=
  match e with
  | Call c => replay_call c T
  | _ => T
  end.

Definition replay (tr : list event) (T : gmap (string * string) (string * bool))
  : gmap (string * string) (string * bool) :=
  foldl replay_event T tr.

(** The value a list of tag specifications gives a key: that of the last
    specification with the key. *)
Definition tag_value (tags : list tag) (k : string) : option string :=
  dict_of_tags tags !! k.

(** ** A scripted control plane

    A control plane whose answers depend on the seconds slept so far:
    which of the groups asked for a describe call shows, the lifecycle
    states of the instances of a group, the lifecycle hooks of a group,
    the answer of the parameter store and the answer of a tagging call. *)

Record scenario := {
  visible : nat -> list string -> list string;
  instances_of : nat -> string -> list string;
  hooks_of : string -> list string;
  timeout_of : string -> result string;
  tagging : string -> string -> result unit
}.

Definition control_plane (sc : scenario) : Client nat := {|
  describe_auto_scaling_groups_with_retries := fun names t =>
    (t, Ok (map (fun n => AsgRaw n 0 0 (instances_of sc t n) None)
                (visible sc t names)));
  update_auto_scaling_group := fun _ _ _ t => (t, Ok tt);
  describe_lifecycle_hooks := fun n t => (t, Ok (hooks_of sc n));
  put_lifecycle_hook := fun _ _ _ t => (t, Ok tt);
  delete_tags_with_retries := fun r k t => (t, tagging sc r k);
  create_or_update_tags_with_retries := fun r k _ _ t => (t, tagging sc r k);
  get_parameter := fun p _ t => (t, timeout_of sc p);
  elapse := fun secs t => t + secs
|}.

(** A reading of decimal digits, for [int]. *)
Definition digit_of (c : ascii) : option Z :=
  let n := nat_of_ascii c in
  if bool_decide (48 <= n <= 57) then Some (Z.of_nat (n - 48)) else None.

Fixpoint decimal_from (acc : Z) (s : string) : option Z :=
  match s with
  | EmptyString => Some acc
  | String c s' => match digit_of c with
                   | Some d => decimal_from (10 * acc + d) s'
                   | None => None
                   end
  end.

Definition decimal (s : string) : option Z :=
  match s with
  | EmptyString => None
  | _ => decimal_from 0 s
  end.

(** An instance object is never equal to a string. *)
Definition never_equal (i : Instance) (s : string) : bool := false.

Definition plain (n : string) : Instance := {| id := n; asg_is_ecs := "false" |}.
Definition ecs (n : string) : Instance := {| id := n; asg_is_ecs := "true" |}.

(** Group names: one capital letter or later character each. *)
Definition letter (n : nat) : string := String (ascii_of_nat (65 + n)) EmptyString.

Definition plain_groups (n : nat) : list Instance :=
  map (fun k => plain (letter k)) (seq 0 n).

Definition the_config : config := {|
  tag_name := "Schedule";
  started_tags := Some [Tag "state" "started"; Tag "started-by" "scheduler"];
  stopped_tags := Some [Tag "state" "stopped"]
|}.

Definition kw_stop (l : list Instance) : kwargs := {|
  PARAM_STOPPED_INSTANCES := l;
  PARAM_STARTED_INSTANCES := [];
  PARAM_CONFIG := the_config;
  PARAM_ASG_CONF := ∅
|}.

Definition kw_start (l : list Instance) (conf : gmap string scaling) : kwargs := {|
  PARAM_STOPPED_INSTANCES := [];
  PARAM_STARTED_INSTANCES := l;
  PARAM_CONFIG := the_config;
  PARAM_ASG_CONF := conf
|}.

Definition run_stop (sc : scenario) (l : list Instance) : state nat * result unit :=
  stop_instances (control_plane sc) decimal never_equal (kw_stop l) (init 0).

Definition run_start (sc : scenario) (l : list Instance)
           (conf : gmap string scaling) : state nat * result unit :=
  start_instances (control_plane sc) (kw_start l conf) (init 0).

(** Every group shows at once, with no instance in service. *)
Definition prompt : scenario := {|
  visible := fun _ names => names;
  instances_of := fun _ _ => [];
  hooks_of := fun _ => ["drain-Termination-hook"];
  timeout_of := fun _ => Ok "120";
  tagging := fun _ _ => Ok tt
|}.

(** Before five seconds have passed only the first [k] groups asked for
    show; afterwards all do.  Every group has the given instances. *)
Definition lagging (k : nat) (instances : list string) : scenario := {|
  visible := fun t names => if bool_decide (t < 5) then take k names else names;
  instances_of := fun _ _ => instances;
  hooks_of := fun _ => ["drain-Termination-hook"];
  timeout_of := fun _ => Ok "120";
  tagging := fun _ _ => Ok tt
|}.

(** Only the first [k] groups asked for ever show. *)
Definition stuck (k : nat) (instances : list string) : scenario := {|
  visible := fun _ names => take k names;
  instances_of := fun _ _ => instances;
  hooks_of := fun _ => ["drain-Termination-hook"];
  timeout_of := fun _ => Ok "120";
  tagging := fun _ _ => Ok tt
|}.

(** Every group shows, and keeps three instances in service. *)
Definition busy : scenario := {|
  visible := fun _ names => names;
  instances_of := fun _ _ => ["InService"; "InService"; "InService"];
  hooks_of := fun _ => ["drain-Termination-hook"];
  timeout_of := fun _ => Ok "120";
  tagging := fun _ _ => Ok tt
|}.

(** The groups have a launch hook and no termination hook. *)
Definition hookless : scenario := {|
  visible := fun _ names => names;
  instances_of := fun _ _ => [];
  hooks_of := fun _ => ["warm-up-Launch-hook"];
  timeout_of := fun _ => Ok "120";
  tagging := fun _ _ => Ok tt
|}.

(** Every tagging call is refused. *)
Definition untaggable : scenario := {|
  visible := fun _ names => names;
  instances_of := fun _ _ => [];
  hooks_of := fun _ => ["drain-Termination-hook"];
  timeout_of := fun _ => Ok "120";
  tagging := fun _ _ => Raise (ClientError "AccessDenied")
|}.

(** What a status query answers after [t] seconds, as the list of the
    names it reports with the state of each. *)
Definition polled (sc : scenario) (t : nat) (names : list string)
  : result (list (string * string)) :=
  match (get_asg_status (control_plane sc) names (init t)).2 with
  | Ok l => Ok (map (fun i => (st_name i, State i)) l)
  | Raise e => Raise e
  end.

(** ** Observations on a trace *)

Definition is_update_of (g : string) (e : event) : bool :=
  match e with
  | Call (UpdateAutoScalingGroup n _ _) => String.eqb n g
  | _ => false
  end.

Definition is_warning (fmt : string) (e : event) : bool :=
  match e with
  | Log WARNING f _ => String.eqb f fmt
  | _ => false
  end.

Definition is_sleep (e : event) : bool :=
  match e with
  | Sleep _ => true
  | _ => false
  end.

Definition is_describe (e : event) : bool :=
  match e with
  | Call (DescribeAutoScalingGroups _) => true
  | _ => false
  end.

Definition count_events (f : event -> bool) (tr : list event) : nat :=
  length (List.filter f tr).

Definition is_tag_call (e : event) : bool :=
  match e with
  | Call (DeleteTags _ _) | Call (CreateOrUpdateTags _ _ _ _) => true
  | _ => false
  end.

(** The propagate-at-launch flag of a create-or-update call. *)
Definition propagates (e : event) : bool :=
  match e with
  | Call (CreateOrUpdateTags _ _ _ p) => p
  | _ => false
  end.

(** The delete calls and the create-or-update calls of a tag block that
    runs to its end. *)
Definition delete_calls (names remove_keys : list string) : list event :=
  flat_map (fun asg => map (fun k => Call (DeleteTags asg k)) remove_keys) names.

Definition create_calls (names : list string) (add_tags : list tag) : list event :=
  flat_map (fun asg =>
              map (fun t => Call (CreateOrUpdateTags asg (Key t) (Value t) false))
                  add_tags) names.

Definition tag_block_events (remove_label add_label : string)
           (names remove_keys : list string) (add_tags : list tag) : list event :=
  (if bool_decide (0 < length remove_keys) then
     Log INFO INFO_REMOVING_KEYS
         [AStr remove_label; AStr (join "," (map quoted remove_keys));
          AStr (join "," names)]
     :: delete_calls names remove_keys
   else [])
  ++ (if bool_decide (0 < length add_tags) then
        Log INFO INF_ADD_KEYS
            [AStr add_label; ATags add_tags; AStr (join "," names)]
        :: create_calls names add_tags
      else []).

(** The tag transition law for a group [g] and a tag store [T]: a key of
    both tag lists has the value the list of tags to add gives it, with
    propagate-at-launch off; a key of the tags to remove that is not a
    key of the tags to add is absent. *)
Definition transition_law (remove_tags add_tags : list tag) (g : string)
           (T : gmap (string * string) (string * bool)) : Prop :=
  (forall k v, k ∈ map Key remove_tags -> k ∈ map Key add_tags ->
               tag_value add_tags k = Some v -> T !! (g, k) = Some (v, false))
  /\ (forall k, k ∈ map Key remove_tags -> k ∉ map Key add_tags ->
                T !! (g, k) = None).

(** Events that are not a scaling call for the group [g]. *)
Definition spares (g : string) (e : event) : Prop := is_update_of g e = false.

(** Events that are not tagging calls. *)
Definition no_tag_call (e : event) : Prop := is_tag_call e = false.

(** Events that are not a log record of the given format at warning
    level. *)
Definition not_warning (fmt : string) (e : event) : Prop :=
  is_warning fmt e = false.

(** A state in which, unless a tagging warning of format [warn_fmt] was
    logged, the tags of every group reported so far obey the transition
    law, whatever the tags were at the start. *)
Definition settled {W} (warn_fmt : string) (remove_tags add_tags : list tag)
           (s : state W) : Prop :=
  Forall (not_warning warn_fmt) (trace s) ->
  forall g, g ∈ map fst (yielded s) ->
  forall T0, transition_law remove_tags add_tags g (replay (trace s) T0).

(** The events that follow the first sleep. *)
Fixpoint after_sleep (tr : list event) : list event :=
  match tr with
  | [] => []
  | e :: tr' => if is_sleep e then tr' else after_sleep tr'
  end.

(** A scaling configuration with an entry for each of the first [n]
    groups. *)
Definition conf_for (n : nat) : gmap string scaling :=
  list_to_map (map (fun k => (letter k, {| desired_capacity := 2; min_size := 1 |}))
                   (seq 0 n)).

(** ** Further specifications *)

Section Exceptions.
Context {W : Type}.

(** [raises_only E c]: an exception that [c] ends with satisfies [E]. *)
Definition raises_only {A} (E : exn -> Prop) (c : M (W:=W) A) : Prop :=
  forall s e, (c s).2 = Raise e -> E e.

(** An exception that some describe call of the client raises. *)
Definition from_describe (client : Client W) (e : exn) : Prop :=
  exists names w,
    (describe_auto_scaling_groups_with_retries client names w).2 = Raise e.
End Exceptions.

(** The instances that are not flagged as ECS. *)
Definition all_plain (l : list Instance) : Prop :=
  Forall (fun i => is_ecs i = false) l.

(** A result that is not a [ClientError]. *)
Definition no_client_error {A} (r : result A) : Prop :=
  match r with
  | Ok _ => True
  | Raise e => is_ClientError e = false
  end.

(** A control plane whose describe calls are throttled and whose other
    calls succeed. *)
Definition throttled : Client nat := {|
  describe_auto_scaling_groups_with_retries := fun _ t =>
    (t, Raise (ClientError "Throttling"));
  update_auto_scaling_group := fun _ _ _ t => (t, Ok tt);
  describe_lifecycle_hooks := fun _ t => (t, Ok ["drain-Termination-hook"]);
  put_lifecycle_hook := fun _ _ _ t => (t, Ok tt);
  delete_tags_with_retries := fun _ _ t => (t, Ok tt);
  create_or_update_tags_with_retries := fun _ _ _ _ t => (t, Ok tt);
  get_parameter := fun _ _ t => (t, Ok "120");
  elapse := fun secs t => t + secs
|}.

(** The group a tagging call is for. *)
Definition tagged_group (e : event) : option string :=
  match e with
  | Call (DeleteTags resource _) => Some resource
  | Call (CreateOrUpdateTags resource _ _ _) => Some resource
  | _ => None
  end.

(** A state in which every tagging call of the trace is for a group that
    has been yielded. *)
Definition tags_reported {W} (s : state W) : Prop :=
  Forall (fun e => match tagged_group e with
                   | Some resource => resource ∈ map fst (yielded s)
                   | None => True
                   end) (trace s).

(** [adds f n c]: [c] adds at most [n] events that [f] holds of. *)
Definition adds {W A} (f : event -> bool) (n : nat) (c : M (W:=W) A) : Prop :=
  forall s, count_events f (trace (c s).1) <= count_events f (trace s) + n.

(** A sleep of five seconds, or no sleep at all. *)
Definition sleeps_five (e : event) : Prop :=
  match e with
  | Sleep secs => secs = 5
  | _ => True
  end.

(** [reaches e c]: whatever the state [c] starts from, the event [e] is
    in the trace when [c] ends. *)
Definition reaches {W A} (e : event) (c : M (W:=W) A) : Prop :=
  forall s, e ∈ trace (c s).1.

(** [grows c]: [c] only appends to the trace. *)
Definition grows {W A} (c : M (W:=W) A) : Prop :=
  within (fun _ => True) (fun _ => True) (fun _ => True) c.

(** Scaling calls and status reads. *)
Definition is_scaling_or_status (e : event) : bool :=
  match e with
  | Call (UpdateAutoScalingGroup _ _ _) => true
  | Call (DescribeAutoScalingGroups _) => true
  | _ => false
  end.

(** The same arguments without a list of start tags, and without a list
    of stop tags. *)
Definition without_started_tags (kw : kwargs) : kwargs := {|
  PARAM_STOPPED_INSTANCES := PARAM_STOPPED_INSTANCES kw;
  PARAM_STARTED_INSTANCES := PARAM_STARTED_INSTANCES kw;
  PARAM_CONFIG := {| tag_name := tag_name (PARAM_CONFIG kw);
                     started_tags := None;
                     stopped_tags := stopped_tags (PARAM_CONFIG kw) |};
  PARAM_ASG_CONF := PARAM_ASG_CONF kw
|}.

Definition without_stopped_tags (kw : kwargs) : kwargs := {|
  PARAM_STOPPED_INSTANCES := PARAM_STOPPED_INSTANCES kw;
  PARAM_STARTED_INSTANCES := PARAM_STARTED_INSTANCES kw;
  PARAM_CONFIG := {| tag_name := tag_name (PARAM_CONFIG kw);
                     started_tags := started_tags (PARAM_CONFIG kw);
                     stopped_tags := None |};
  PARAM_ASG_CONF := PARAM_ASG_CONF kw
|}.

(** ** Discovery: [get_schedulable_instances] *)

Definition INF_FETCHED_ASG_INSTANCES := "Number of fetched asg is {}".
Definition INF_FETCHING_ASG_INSTANCES :=
  "Fetching asg instances for account {} in region {}".
Definition DEBUG_SKIPPED_ASG_INSTANCE :=
  "Skipping asg {} because it it not in a schedulable state ({})".
Definition DEBUG_SELECTED_ASG_INSTANCE := "Selected asg {} in state ({})".

(** The entries of [kwargs] that [get_schedulable_instances] reads. *)
Record discovery_kwargs := {
  DISCOVERY_ACCOUNT : string;
  DISCOVERY_REGION : string;
  DISCOVERY_CONFIG : config
}.

Section Discovery.
Context {W : Type}.

(** [client.describe_auto_scaling_groups_with_retries], called with the
    keyword arguments [args], which are empty or hold the [NextToken] of
    the page before: the groups of the page and its [NextToken], if it
    has one. *)
Variable describe_page :
  option string -> W -> W * result (list asg_raw * option string).

(** The [debug] method of the logger.  The trace keeps the records of
    the levels info, warning and error; what a debug record does is left
    to the world. *)
Variable logger_debug : string -> list arg -> W -> W.

(** [jmespath.search(jmes, asg_resp)] and the loop over its result, on
    the two local variables of the loop, for a tag name that is not
    [quotable]: the text of the query is then not the query above, and
    what the library makes of it is left open. *)
Variable select_unquoted :
  string -> list asg_raw -> nat * list asg_data -> M (W:=W) (nat * list asg_data).

Definition debug (fmt : string) (args : list arg) : M (W:=W) unit :=
  on_world (fun w => (logger_debug fmt args w, Ok tt)).

(** The body of the [for] loop over the groups of a page, on the two
    local variables [number_of_asgs] and [asg_instances]. *)
Definition select_one (tagname : string) (acc : nat * list asg_data)
           (asg : asg_descr) : M (W:=W) (nat * list asg_data) :=
  let (number_of_asgs, asg_instances) := acc in
  asg <- _select_instance_data asg tagname;
  let number_of_asgs := number_of_asgs + 1 in
  if is_in_schedulable_state asg then
    debug DEBUG_SELECTED_ASG_INSTANCE [AStr (INST_NAME asg); AStr (INST_STATE asg)] ;;
    ret (number_of_asgs, asg_instances ++ [asg])
  else
    log WARNING DEBUG_SKIPPED_ASG_INSTANCE
        [AStr (INST_NAME asg); AStr (INST_STATE asg)] ;;
    ret (number_of_asgs, asg_instances).

(** The [while not done] loop, for at most [fuel] pages; [None] when the
    pages have not come to an end by then. *)
Fixpoint fetch_pages (fuel : nat) (tagname : string) (token : option string)
         (acc : nat * list asg_data) : M (W:=W) (option (nat * list asg_data)) :=
  match fuel with
  | 0 => ret None
  | S fuel' =>
      asg_resp <- on_world (describe_page token);
      acc' <- (if quotable tagname
               then for_acc (jmes_discovery tagname asg_resp.1) acc
                            (select_one tagname)
               else select_unquoted tagname asg_resp.1 acc);
      match asg_resp.2 with
      | Some next_token => fetch_pages fuel' tagname (Some next_token) acc'
      | None => ret (Some acc')
      end
  end.

Definition get_schedulable_instances (fuel : nat) (kw : discovery_kwargs)
  : M (W:=W) (option (list asg_data)) :=
  let tagname := tag_name (DISCOVERY_CONFIG kw) in
  log INFO INF_FETCHING_ASG_INSTANCES
      [AStr (DISCOVERY_ACCOUNT kw); AStr (DISCOVERY_REGION kw)] ;;
  r <- fetch_pages fuel tagname None (0, []);
  match r with
  | None => ret None
  | Some (number_of_asgs, asg_instances) =>
      log INFO INF_FETCHED_ASG_INSTANCES
          [AVal (PInt (Z.of_nat number_of_asgs));
           AVal (PInt (Z.of_nat (length asg_instances)))] ;;
      ret (Some asg_instances)
  end.
End Discovery.

(** A control plane that serves the given pages: the token of page [i]
    is a string of [i] characters, and a page that is not the last comes
    with the token of the next. *)
Fixpoint token_of (i : nat) : string :=
  match i with
  | 0 => EmptyString
  | S i' => String "x"%char (token_of i')
  end.

Definition serve_pages (pages : list (list asg_raw)) (token : option string)
           (w : nat) : nat * result (list asg_raw * option string) :=
  let i := match token with
           | None => 0
           | Some t => String.length t
           end in
  (S w, Ok (nth i pages [],
            if bool_decide (S i < length pages) then Some (token_of (S i))
            else None)).


(** A logger that drops debug records. *)
Definition drop_debug {W} (fmt : string) (args : list arg) (w : W) : W := w.

(** A group with the given name, number of instances in service and
    tags. *)
Definition group (name : string) (in_service : nat) (tags : list tag) : asg_raw :=
  AsgRaw name (Z.of_nat in_service) 0 (repeat "InService" in_service) (Some tags).

Definition the_discovery : discovery_kwargs := {|
  DISCOVERY_ACCOUNT := "111122223333";
  DISCOVERY_REGION := "eu-west-1";
  DISCOVERY_CONFIG := the_config
|}.

(** A record that discovery selects: in a schedulable state, with a
    schedule name. *)
Definition selected (d : asg_data) : Prop :=
  is_in_schedulable_state d = true /\ is_Some (INST_SCHEDULE d).

(** A group that is described with tags, one of them with the key
    [tagname]. *)
Definition carries (tagname : string) (g : asg_raw) : Prop :=
  match raw_tags g with
  | Some tags => tagname ∈ map Key tags
  | None => False
  end.

#[global] Instance carries_dec tagname g : Decision (carries tagname g).
Proof. unfold carries. destruct (raw_tags g); apply _. Defined.

(** [r] is a record of the group [g]: it has the name, the sizes and the
    schedule of [g], and it is stopped when no instance of [g] is in
    service and running when one is. *)
Definition describes (tagname : string) (g : asg_raw) (r : asg_data) : Prop :=
  INST_ID r = raw_name g
  /\ INST_NAME r = raw_name g
  /\ INST_ASG_DESIRED_CAPACITY r = raw_desired_capacity g
  /\ INST_ASG_MIN_SIZE r = raw_min_size g
  /\ (exists tags v, raw_tags g = Some tags
                     /\ tag_value tags tagname = Some v
                     /\ INST_SCHEDULE r = Some v)
  /\ (INST_STATE r = "stopped" <-> "InService" ∉ raw_instances g)
  /\ (INST_STATE r = "running" <-> "InService" ∈ raw_instances g).

(** A library that rejects every query made with a tag name that is not
    [quotable]; the runs below use a tag name that is. *)
Definition rejects_unquoted {W} (tagname : string) (resp : list asg_raw)
           (acc : nat * list asg_data) : M (W:=W) (nat * list asg_data) :=
  raise (OtherException "LexerError").

(** [r] is the record [_select_instance_data] builds from [d]. *)
Definition record_of (tagname : string) (d : asg_descr) (r : asg_data) : Prop :=
  forall s0 : state nat, (_select_instance_data d tagname s0).2 = Ok r.


Definition two_pages : list (list asg_raw) :=
  [ [group "asg-A" 2 [Tag "Schedule" "office-hours"];
     group "asg-B" 1 [Tag "Name" "untagged"]];
    [group "asg-C" 0 [Tag "Schedule" "nights"; Tag "Name" "c"]] ].

(** * Properties *)

(** ** Batching *)

Section Batches.
Context {A : Type}.
Implicit Types (l buffer : list A) (size : nat).

Lemma batches_from_spec size l :
  0 < size ->
  forall buffer, length buffer < size ->
    concat (batches_from buffer l size) = buffer ++ l
    /\ Forall (fun b => 0 < length b <= size) (batches_from buffer l size)
    /\ Forall (fun b => length b = size)
              (removelast (batches_from buffer l size)).
Proof.
  intros Hsize. induction l as [| x l IH]; intros buffer Hlen; simpl.
  - case_bool_decide as Hb.
    + simpl. rewrite !app_nil_r. repeat split; auto.
      constructor; [lia | constructor].
    + destruct buffer; simpl in *; [| lia]. repeat split; auto.
  - case_bool_decide as Hfull.
    + destruct (IH [] Hsize) as (Hc & Hall & Hinit).
      simpl. rewrite Hc. simpl. rewrite <- app_assoc. simpl.
      repeat split; auto.
      * constructor; [lia | exact Hall].
      * destruct (batches_from [] l size) eqn:E; [constructor |].
        constructor; [exact Hfull | exact Hinit].
    + rewrite length_app in Hfull. simpl in Hfull.
      destruct (IH (buffer ++ [x])) as (Hc & Hall & Hinit).
      { rewrite length_app. simpl. lia. }
      rewrite Hc, <- app_assoc. simpl. auto.
Qed.
End Batches.

(** C8. For a positive [size], [instance_batches] cuts its input, in
    order, into consecutive batches: their concatenation is the input,
    every batch holds at most [size] elements and none is empty, every
    batch but the last holds exactly [size], the empty input gives no
    batch, and seven elements with size five give a batch of five and a
    batch of two. *)
Theorem instance_batches_partition {A} (asg_instances : list A) (size : nat) :
  0 < size ->
  concat (instance_batches asg_instances size) = asg_instances
  /\ Forall (fun b => length b <= size) (instance_batches asg_instances size)
  /\ Forall (fun b => b <> []) (instance_batches asg_instances size)
  /\ Forall (fun b => length b = size)
            (removelast (instance_batches asg_instances size))
  /\ instance_batches (@nil A) size = []
  /\ (forall g1 g2 g3 g4 g5 g6 g7 : A,
        instance_batches [g1; g2; g3; g4; g5; g6; g7] 5
        = [[g1; g2; g3; g4; g5]; [g6; g7]]).
Proof.
  intros Hsize. unfold instance_batches.
  destruct (batches_from_spec size asg_instances Hsize [])
    as (Hc & Hall & Hinit); [simpl; lia |].
  repeat split; auto.
  - eapply Forall_impl; [exact Hall |]. simpl. intros b Hb. lia.
  - eapply Forall_impl; [exact Hall |]. simpl. intros b Hb ->. simpl in Hb. lia.
Qed.

Lemma instance_batches_partition_witness :
  0 < 5
  /\ concat (instance_batches [1; 2; 3; 4; 5; 6; 7] 5) = [1; 2; 3; 4; 5; 6; 7].
Proof.
  split; [lia |].
  apply (instance_batches_partition [1; 2; 3; 4; 5; 6; 7] 5). lia.
Defined.

(** ** State classification *)

Section Classification.
Context {W : Type}.
Implicit Types (s : state W).

Lemma select_instance_data_state (asg : asg_descr) (tagname : string) s :
  exists d,
    _select_instance_data asg tagname s
    = (St (world s)
          (trace s ++ [Log INFO "Displaying asg data {}" [AData d]])
          (yielded s), Ok d)
    /\ INST_STATE d = (if bool_decide (InstanceNumber asg = 0)
                       then "stopped" else "running").
Proof. eexists. split; reflexivity. Qed.

(** C7. The record that [_select_instance_data] builds from a group
    descriptor has state stopped exactly when the number of in-service
    instances is 0 and state running exactly when it is greater than
    0; hence its state is always one of the two schedulable states. *)
Theorem select_instance_data_classifies (asg : asg_descr) (tagname : string) s :
  exists d s',
    _select_instance_data asg tagname s = (s', Ok d)
    /\ (INST_STATE d = "stopped" <-> InstanceNumber asg = 0)
    /\ (INST_STATE d = "running" <-> 0 < InstanceNumber asg)
    /\ (INST_STATE d = "running" \/ INST_STATE d = "stopped")
    /\ is_in_schedulable_state d = true.
Proof.
  destruct (select_instance_data_state asg tagname s) as (d & Hrun & Hst).
  exists d. eexists. split; [exact Hrun |].
  unfold is_in_schedulable_state. rewrite Hst.
  case_bool_decide as Hn.
  - repeat split; auto; try (intros; lia); try discriminate.
  - repeat split; auto; try (intros; lia); try discriminate.
Qed.

Variable client : Client W.

Lemma get_asg_status_run (asg_ids : list string) s :
  let s1 := St (world s)
               (trace s ++ [Call (DescribeAutoScalingGroups asg_ids)])
               (yielded s) in
  get_asg_status client asg_ids s
  = match describe_auto_scaling_groups_with_retries client asg_ids (world s) with
    | (w, Ok resp) =>
        (St w (trace s1) (yielded s1), Ok (map status_of (jmes_status resp)))
    | (w, Raise e) => (St w (trace s1) (yielded s1), Raise e)
    end.
Proof.
  unfold get_asg_status, call_describe, invoke, bind, emit, on_world, ret.
  simpl.
  destruct (describe_auto_scaling_groups_with_retries client asg_ids (world s))
    as [w [resp | e]]; reflexivity.
Qed.

Lemma in_service_zero (l : list string) :
  in_service l = 0 <-> "InService" ∉ l.
Proof.
  unfold in_service. induction l as [| x l IH]; [by split; [intros _; apply not_elem_of_nil |] |].
  rewrite not_elem_of_cons. destruct (decide (x = "InService")) as [-> | Hx].
  - rewrite filter_cons_True by done. simpl. split; [lia | intros [? _]; done].
  - rewrite filter_cons_False by done. rewrite IH. split; [intros ?; split; [congruence | done] | by intros [_ ?]].
Qed.

(** C10. The poll and discovery classify alike.  Whatever groups the
    control plane describes, [get_asg_status] returns for each of them,
    in order, its name and the label stopped when none of its instances
    is in service and running when one is; and for a group described
    with tags, [_select_instance_data] gives what the discovery query
    makes of the same group a record of that name whose state is that
    label.  (A group described without tags never passes the discovery
    query.) *)
Theorem get_asg_status_agrees_with_discovery
        (asg_ids : list string) (tagname : string) s :
  match describe_auto_scaling_groups_with_retries client asg_ids (world s) with
  | (_, Raise e) => snd (get_asg_status client asg_ids s) = Raise e
  | (_, Ok resp) =>
      exists status,
        snd (get_asg_status client asg_ids s) = Ok status
        /\ Forall2
             (fun g i =>
                st_name i = raw_name g
                /\ (State i = "stopped" <-> "InService" ∉ raw_instances g)
                /\ (State i = "running" <-> "InService" ∈ raw_instances g)
                /\ (is_Some (raw_tags g)
                    <-> is_Some (as_descr (project_discovery g)))
                /\ forall asg, as_descr (project_discovery g) = Some asg ->
                     forall s0, exists d s1,
                       _select_instance_data asg tagname s0 = (s1, Ok d)
                       /\ INST_NAME d = st_name i
                       /\ INST_STATE d = State i)
             resp status
  end.
Proof.
  rewrite get_asg_status_run.
  destruct (describe_auto_scaling_groups_with_retries client asg_ids (world s))
    as [w [resp | e]]; simpl; [| reflexivity].
  eexists. split; [reflexivity |].
  unfold jmes_status. rewrite map_map.
  induction resp as [| g resp IH]; simpl; constructor; [| exact IH].
  pose proof (in_service_zero (raw_instances g)) as Hzero.
  unfold status_of, project_status, as_descr, project_discovery.
  cbn [st_name State cnt_name cnt_instance_number sel_tags sel_name
       sel_desired_capacity sel_min_size sel_instance_number].
  split; [reflexivity |].
  split; [| split; [| split]].
  - case_bool_decide as Hn; [by split; [intros _; apply Hzero | ] |].
    split; [discriminate | intros Hno; by apply Hzero in Hno].
  - case_bool_decide as Hn.
    + split; [discriminate |]. intros Hin. by apply Hzero in Hn.
    + split; [intros _ | done].
      destruct (decide ("InService" ∈ raw_instances g)) as [| Hno]; [done |].
      by apply Hzero in Hno.
  - destruct (raw_tags g); split; intros [? ?]; by eauto.
  - intros asg Hasg s0. destruct (raw_tags g) as [l |]; [| discriminate].
    injection Hasg as <-.
    eexists. eexists. split; [reflexivity |]. split; reflexivity.
Qed.
End Classification.

(** ** What a computation appends *)

Section Within.
Context {W : Type}.
Implicit Types (P : event -> Prop) (Y : string * string -> Prop) (s : state W).
Local Abbreviation M := (M (W:=W)).

Lemma extends_refl {A} P Y (Q : A -> Prop) s r :
  (forall a, r = Ok a -> Q a) -> extends P Y Q s (s, r).
Proof.
  intros HQ. repeat split; simpl.
  - exists []. by rewrite app_nil_r.
  - exists []. by rewrite app_nil_r.
  - exact HQ.
Qed.

Lemma extends_trans {A B} P Y (Q : A -> Prop) (R : B -> Prop) s s1 r1 out :
  extends P Y Q s (s1, r1) ->
  extends P Y R s1 out ->
  extends P Y R s out.
Proof.
  intros ((n1 & Ht1 & Hp1) & (y1 & Hy1 & Hq1) & _)
         ((n2 & Ht2 & Hp2) & (y2 & Hy2 & Hq2) & HR).
  simpl in *. repeat split.
  - exists (n1 ++ n2). rewrite Ht2, Ht1, app_assoc.
    split; [done | by apply Forall_app].
  - exists (y1 ++ y2). rewrite Hy2, Hy1, app_assoc.
    split; [done | by apply Forall_app].
  - exact HR.
Qed.

Lemma extends_raise {A B} P Y (Q : A -> Prop) (R : B -> Prop) s s1 r1 e :
  extends P Y Q s (s1, r1) -> extends P Y R s (s1, Raise e).
Proof.
  intros (Ht & Hy & _). repeat split; [exact Ht | exact Hy |].
  simpl. intros a Ha. discriminate.
Qed.

Lemma within_weaken {A} P Y (Q : A -> Prop) P' Y' (Q' : A -> Prop) (c : M A) :
  within P Y Q c ->
  (forall e, P e -> P' e) -> (forall p, Y p -> Y' p) ->
  (forall a, Q a -> Q' a) ->
  within P' Y' Q' c.
Proof.
  intros H HP HY HQ s.
  destruct (H s) as ((n & Ht & Hn) & (ys & Hy & Hys) & Hr).
  repeat split.
  - exists n. split; [done |]. eapply Forall_impl; eauto.
  - exists ys. split; [done |]. eapply Forall_impl; eauto.
  - intros a Ha. auto.
Qed.

Lemma within_ret {A} P Y (Q : A -> Prop) a :
  Q a -> within (W:=W) P Y Q (ret a).
Proof.
  intros HQ s. apply extends_refl. intros a' [= <-]. exact HQ.
Qed.

Lemma within_raise {A} P Y (Q : A -> Prop) e :
  within (W:=W) P Y Q (raise e).
Proof. intros s. apply extends_refl. intros a' [=]. Qed.

Lemma within_bind {A B} P Y (Q : A -> Prop) (R : B -> Prop) (c : M A) k :
  within P Y Q c ->
  (forall a, Q a -> within P Y R (k a)) ->
  within P Y R (bind c k).
Proof.
  intros Hc Hk s. unfold bind. specialize (Hc s).
  destruct (c s) as [s1 [a | e]].
  - eapply extends_trans; [exact Hc |]. apply Hk. by apply Hc.
  - eapply extends_raise. exact Hc.
Qed.

Lemma within_bind_any {A B} P Y (R : B -> Prop) (c : M A) k :
  within P Y (fun _ => True) c ->
  (forall a, within P Y R (k a)) ->
  within P Y R (bind c k).
Proof. intros Hc Hk. eapply within_bind; [exact Hc |]. auto. Qed.

Lemma within_try_except {A} P Y (Q : A -> Prop) (c : M A) catches h :
  within P Y Q c ->
  (forall e, within P Y Q (h e)) ->
  within P Y Q (try_except c catches h).
Proof.
  intros Hc Hh s. unfold try_except. specialize (Hc s).
  destruct (c s) as [s1 [a | e]]; [exact Hc |].
  destruct (catches e); [| exact Hc].
  eapply extends_trans; [exact Hc |]. apply Hh.
Qed.

Lemma within_attempt {A} P Y (Q : A -> Prop) (c : M A) :
  within P Y Q c ->
  within P Y (fun r => match r with Ok a => Q a | Raise _ => True end)
         (attempt c).
Proof.
  intros Hc s. unfold attempt. specialize (Hc s).
  destruct (c s) as [s1 r]. destruct Hc as (Ht & Hy & Hr).
  repeat split; [exact Ht | exact Hy |].
  simpl. intros a [= <-]. destruct r; auto.
Qed.

Lemma within_attempt_any {A} P Y (c : M A) :
  within P Y (fun _ => True) c ->
  within P Y (fun _ => True) (attempt c).
Proof.
  intros Hc. eapply within_weaken; [apply within_attempt, Hc | auto ..].
Qed.

Lemma within_emit P Y (Q : unit -> Prop) e :
  P e -> Q tt -> within (W:=W) P Y Q (emit e).
Proof.
  intros HP HQ s. repeat split; simpl.
  - exists [e]. split; [done |]. by constructor.
  - exists []. by rewrite app_nil_r.
  - intros [] _. exact HQ.
Qed.

Lemma within_log P Y (Q : unit -> Prop) lv fmt args :
  P (Log lv fmt args) -> Q tt -> within (W:=W) P Y Q (log lv fmt args).
Proof. apply within_emit. Qed.

Lemma within_yield P Y (Q : unit -> Prop) p :
  Y p -> Q tt -> within (W:=W) P Y Q (yield p).
Proof.
  intros HY HQ s. repeat split; simpl.
  - exists []. by rewrite app_nil_r.
  - exists [p]. split; [done |]. by constructor.
  - intros [] _. exact HQ.
Qed.

Lemma within_on_world {A} P Y (op : W -> W * result A) :
  within P Y (fun _ => True) (on_world op).
Proof.
  intros s. unfold on_world. destruct (op (world s)) as [w r].
  repeat split; simpl; auto.
  - exists []. by rewrite app_nil_r.
  - exists []. by rewrite app_nil_r.
Qed.

Lemma within_for_each {A} P Y (l : list A) (body : A -> M unit) :
  (forall x, x ∈ l -> within P Y (fun _ => True) (body x)) ->
  within P Y (fun _ => True) (for_each l body).
Proof.
  induction l as [| x l IH]; intros Hb; simpl.
  - by apply within_ret.
  - apply within_bind_any.
    + apply Hb. by left.
    + intros _. apply IH. intros y Hy. apply Hb. by right.
Qed.

Lemma within_for_acc {A B} P Y (I : B -> Prop) (l : list A) acc
      (body : B -> A -> M B) :
  I acc ->
  (forall acc x, I acc -> x ∈ l -> within P Y I (body acc x)) ->
  within P Y I (for_acc l acc body).
Proof.
  revert acc. induction l as [| x l IH]; intros acc Hacc Hb; simpl.
  - by apply within_ret.
  - eapply within_bind.
    + apply Hb; [exact Hacc | by left].
    + intros acc' Hacc'. apply IH; [exact Hacc' |].
      intros a y Ha Hy. apply Hb; [exact Ha | by right].
Qed.

Lemma within_for_break {A} P Y (l : list A) (body : A -> M (ctl unit)) :
  (forall x, x ∈ l -> within P Y (fun _ => True) (body x)) ->
  within P Y (fun _ => True) (for_break l body).
Proof.
  induction l as [| x l IH]; intros Hb; simpl.
  - by apply within_ret.
  - apply within_bind_any.
    + apply Hb. by left.
    + intros [[] |]; [| by apply within_ret].
      apply IH. intros y Hy. apply Hb. by right.
Qed.
End Within.

(** ** The verification step on scripted control planes *)

(** C1 (the code departs from it). Ten plain groups are to be stopped.
    The status read after the scaling calls reports six of them, all
    stopped; the one status read after the five-second wait reports all
    ten, all stopped.  The call then produces no pair at all, where the
    claim wants ten; and with sixty groups, whose first batch of fifty
    goes the same way, no group of the second batch is ever scaled:
    the [break] of the verification step leaves the loop over the
    batches. *)
Theorem stop_instances_drops_rechecked_batch :
  let names := map id (plain_groups 10) in
  polled (lagging 6 []) 0 names
  = Ok (map (fun n => (n, "stopped")) (take 6 names))
  /\ polled (lagging 6 []) 5 names = Ok (map (fun n => (n, "stopped")) names)
  /\ (run_stop (lagging 6 []) (plain_groups 10)).2 = Ok tt
  /\ yielded (run_stop (lagging 6 []) (plain_groups 10)).1 = []
  /\ count_events is_sleep (trace (run_stop (lagging 6 []) (plain_groups 10)).1) = 1
  /\ yielded (run_stop (lagging 6 []) (plain_groups 60)).1 = []
  /\ forallb (fun i => negb (existsb (is_update_of (id i))
                              (trace (run_stop (lagging 6 []) (plain_groups 60)).1)))
             (drop 50 (plain_groups 60)) = true.
Proof. cbv zeta. repeat split; vm_compute; reflexivity. Qed.

(** The same groups with a control plane that answers at once: all
    ten pairs are produced, and so are those of a second batch. *)
Lemma stop_instances_prompt_batches :
  yielded (run_stop prompt (plain_groups 10)).1
  = map (fun i => (id i, STATE_STOPPED)) (plain_groups 10)
  /\ yielded (run_stop prompt (plain_groups 60)).1
     = map (fun i => (id i, STATE_STOPPED)) (plain_groups 60).
Proof. split; vm_compute; reflexivity. Qed.

(** On the start path the status is not read again after the wait: of
    five groups of which three show before the wait and all five after
    it, three pairs are produced. *)
Lemma start_instances_does_not_recheck :
  let r := run_start (lagging 3 ["InService"]) (plain_groups 5) (conf_for 5) in
  r.2 = Ok tt
  /\ yielded r.1 = map (fun i => (id i, STATE_RUNNING)) (take 3 (plain_groups 5))
  /\ count_events is_sleep (trace r.1) = 1
  /\ existsb is_describe (after_sleep (trace r.1)) = false.
Proof. cbv zeta. repeat split; vm_compute; reflexivity. Qed.

(** C2 (the code departs from it). Ten plain groups are to be stopped
    and every status read, however late, reports only six of them.  The
    call waits once, reads the status once more, logs no not-stopping
    warning for the four missing groups, and does not abandon the batch:
    it goes on to tag and report the six. *)
Theorem stop_instances_single_recheck_no_warning :
  let names := map id (plain_groups 10) in
  let r := run_stop (stuck 6 []) (plain_groups 10) in
  (forall t, polled (stuck 6 []) t names
             = Ok (map (fun n => (n, "stopped")) (take 6 names)))
  /\ r.2 = Ok tt
  /\ count_events is_sleep (trace r.1) = 1
  /\ count_events is_describe (after_sleep (trace r.1)) = 1
  /\ count_events (is_warning WARNING_ASG_INSTANCE_NOT_STOPPING) (trace r.1) = 0
  /\ yielded r.1 = map (fun n => (n, STATE_STOPPED)) (take 6 names).
Proof. cbv zeta. repeat split; vm_compute; reflexivity. Qed.

(** C3 (the code departs from it). A plain group keeps three instances
    in service, so that every status read labels it running; the call
    reports it stopped all the same, since it takes the names of a
    status answer and drops the states. *)
Theorem stop_instances_reports_running_group :
  (forall t, polled busy t ["asg-A"] = Ok [("asg-A", "running")])
  /\ is_in_stopped_state "running" = false
  /\ (run_stop busy [plain "asg-A"]).2 = Ok tt
  /\ yielded (run_stop busy [plain "asg-A"]).1 = [("asg-A", STATE_STOPPED)].
Proof. repeat split; vm_compute; reflexivity. Qed.

(** C4 (the code departs from it). An ECS group without a termination
    hook: the lookup gives an empty list, indexing it raises
    [IndexError], which the handler for [ClientError] lets through; the
    call ends with that exception, before any scaling call. *)
Theorem stop_instances_aborts_without_termination_hook :
  (get_asg_termination_lifecycle_hook_name (control_plane hookless) "asg-ecs-1"
                                           (init 0)).2 = Ok []
  /\ (run_stop hookless [ecs "asg-ecs-1"]).2 = Raise IndexError
  /\ existsb (is_update_of "asg-ecs-1")
             (trace (run_stop hookless [ecs "asg-ecs-1"]).1) = false
  /\ yielded (run_stop hookless [ecs "asg-ecs-1"]).1 = [].
Proof. repeat split; vm_compute; reflexivity. Qed.

(** With a termination hook the same group is scaled and reported. *)
Lemma stop_instances_with_termination_hook :
  (run_stop prompt [ecs "asg-ecs-1"]).2 = Ok tt
  /\ existsb (is_update_of "asg-ecs-1")
             (trace (run_stop prompt [ecs "asg-ecs-1"]).1) = true
  /\ yielded (run_stop prompt [ecs "asg-ecs-1"]).1 = [("asg-ecs-1", STATE_STOPPED)].
Proof. repeat split; vm_compute; reflexivity. Qed.

(** ** Automation for [within] *)

Create HintDb within.

Ltac head_of t :=
  lazymatch t with
  | ?f _ => head_of f
  | _ => t
  end.

(** One structural step on a [within] goal. *)
Ltac within_step :=
  lazymatch goal with
  | |- within _ _ _ (bind _ _) =>
      first [ eapply within_bind; [solve [eauto with within] | intros ? ?]
            | apply within_bind_any; [| intros ?] ]
  | |- within _ _ _ (ret _) => apply within_ret
  | |- within _ _ _ (raise _) => apply within_raise
  | |- within _ _ _ (try_except _ _ _) => apply within_try_except; [| intros ?]
  | |- within _ _ _ (attempt _) => apply within_attempt_any
  | |- within _ _ _ (emit _) => apply within_emit
  | |- within _ _ _ (log _ _ _) => apply within_log
  | |- within _ _ _ (yield _) => apply within_yield
  | |- within _ _ _ (on_world _) => apply within_on_world
  | |- within _ _ _ (for_each _ _) => apply within_for_each; intros ? ?
  | |- within _ _ _ (for_acc _ _ _) => apply within_for_acc; [| intros ? ? ? ?]
  | |- within _ _ _ (for_break _ _) => apply within_for_break; intros ? ?
  | |- within _ _ _ (if ?b then _ else _) => destruct b
  | |- within _ _ _ (match ?x with _ => _ end) => destruct x
  | |- within _ _ _ (let _ := _ in _) => cbv zeta
  | |- within _ _ _ ?c => let h := head_of c in unfold h
  end.

(** Steps until only the conditions on events, pairs and values are
    left, each of which [tac] is tried on. *)
Ltac within_auto tac :=
  repeat (first [ solve [eauto with within] | within_step ]; try exact I; try solve [tac]).

(** ** The loop over the scaling configuration *)

Section ScaleItems.
Context {W : Type}.
Variable client : Client W.

Lemma scale_items_within P Y items ids found asg :
  (forall desired min, P (Call (UpdateAutoScalingGroup asg desired min))) ->
  P (Call (DescribeAutoScalingGroups ids)) ->
  within P Y (fun _ => True) (scale_items client items ids found asg).
Proof.
  intros Hupdate Hdescribe. revert found.
  induction items as [| [key value] items IH]; intros found; simpl.
  - by apply within_ret.
  - destruct (String.eqb key asg); [| apply IH].
    apply within_bind_any; [within_auto ltac:(auto) |].
    intros [found' | ex]; [apply IH | by apply within_ret].
Qed.
End ScaleItems.

(** ** Tag bookkeeping never withholds a report *)

Section Bookkeeping.
Context {W : Type}.
Variable client : Client W.
Implicit Types (s : state W) (names remove_keys : list string).

Lemma transition_tag_calls_no_yield rl al names remove_keys add_tags s :
  yielded (transition_tag_calls client rl al names remove_keys add_tags s).1
  = yielded s.
Proof.
  assert (H : within (fun _ => True) (fun _ => False) (fun _ => True)
                     (transition_tag_calls client rl al names remove_keys add_tags)).
  { within_auto idtac. }
  destruct (H s) as (_ & (ys & Hy & Hys) & _).
  destruct ys as [| y ys]; [by rewrite app_nil_r in Hy |].
  by inversion Hys.
Qed.

Lemma yield_all (reached : string) names s :
  for_each names (fun i => yield (i, reached)) s
  = (St (world s) (trace s) (yielded s ++ map (fun i => (i, reached)) names),
     Ok tt).
Proof.
  revert s. induction names as [| n names IH]; intros s; simpl.
  - unfold ret. rewrite app_nil_r. by destruct s.
  - unfold bind, yield at 1. rewrite IH. simpl. by rewrite <- app_assoc.
Qed.

(** What the [try] block does, by how the calls it encloses end. *)
Lemma apply_transition_tags_run warn_fmt rl al names remove_keys add_tags s :
  let body := transition_tag_calls client rl al names remove_keys add_tags s in
  apply_transition_tags client warn_fmt rl al names remove_keys add_tags s
  = match body.2 with
    | Ok _ => (body.1, Ok tt)
    | Raise ex =>
        (St (world body.1)
            (trace body.1
             ++ [Log WARNING warn_fmt [AStr (join "," names); AStr (str_exn ex)]])
            (yielded body.1), Ok tt)
    end.
Proof.
  unfold apply_transition_tags, try_except. simpl.
  destruct (transition_tag_calls client rl al names remove_keys add_tags s)
    as [s1 [[] | ex]]; reflexivity.
Qed.

Lemma tag_and_yield_run warn_fmt rl al reached names remove_keys add_tags s :
  tag_and_yield client warn_fmt rl al reached names remove_keys add_tags s
  = if bool_decide (0 < length names) then
      let s1 := (apply_transition_tags client warn_fmt rl al names
                                       remove_keys add_tags s).1 in
      (St (world s1) (trace s1)
          (yielded s1 ++ map (fun i => (i, reached)) names), Ok tt)
    else (s, Ok tt).
Proof.
  unfold tag_and_yield. case_bool_decide; [| reflexivity].
  unfold bind. rewrite apply_transition_tags_run. cbv zeta.
  destruct (transition_tag_calls client rl al names remove_keys add_tags s)
    as [s1 [[] | ex]]; cbn [fst snd]; by rewrite yield_all.
Qed.

(** C6. Whatever the tagging calls do, the block that tags and reports
    a non-empty list of groups ends without an exception and yields every
    group of the list with the reached state; when a tagging call raises,
    what it adds to the trace ends with the warning that names the list.
    (For an empty list the block does nothing.) *)
Theorem tag_and_yield_reports_despite_failure
        warn_fmt rl al reached names remove_keys add_tags s :
  let body := transition_tag_calls client rl al names remove_keys add_tags s in
  let out := tag_and_yield client warn_fmt rl al reached names
                           remove_keys add_tags s in
  out.2 = Ok tt
  /\ yielded out.1 = yielded s ++ map (fun i => (i, reached)) names
  /\ match names, body.2 with
     | [], _ => trace out.1 = trace s
     | _ :: _, Ok _ => trace out.1 = trace body.1
     | _ :: _, Raise ex =>
         trace out.1
         = trace body.1
           ++ [Log WARNING warn_fmt [AStr (join "," names); AStr (str_exn ex)]]
     end.
Proof.
  cbv zeta. rewrite tag_and_yield_run.
  destruct names as [| n names].
  { rewrite bool_decide_eq_false_2 by (cbn; lia).
    cbn. rewrite app_nil_r. auto. }
  rewrite bool_decide_eq_true_2 by (cbn; lia).
  rewrite apply_transition_tags_run. cbv zeta.
  pose proof (transition_tag_calls_no_yield rl al (n :: names)
                                            remove_keys add_tags s) as Hy.
  destruct (transition_tag_calls client rl al (n :: names) remove_keys add_tags s)
    as [s1 [[] | ex]]; cbn [fst snd world trace yielded] in Hy |- *;
    rewrite Hy; auto.
Qed.
End Bookkeeping.

(** A run in which every tagging call is refused: the warning is logged
    and the group is reported. *)
Lemma stop_instances_reports_untaggable_group :
  let r := run_stop untaggable [plain "asg-A"] in
  r.2 = Ok tt
  /\ count_events (is_warning WARN_STOPPED_ASG_INSTANCES_TAGGING) (trace r.1) = 1
  /\ yielded r.1 = [("asg-A", STATE_STOPPED)].
Proof. cbv zeta. repeat split; vm_compute; reflexivity. Qed.

(** ** Groups without a scaling configuration *)

Section Unconfigured.
Context {W : Type}.
Variable client : Client W.
Variable g : string.
Implicit Types (s : state W) (ids found : list string).

Lemma scale_items_spares Y items ids found asg :
  Forall (fun kv => kv.1 <> g) items ->
  within (spares g) Y (fun _ => True) (scale_items client items ids found asg).
Proof.
  intros Hitems. revert found.
  induction Hitems as [| [key value] items Hkey _ IH]; intros found; simpl.
  - by apply within_ret.
  - destruct (String.eqb_spec key asg) as [-> | Hne]; [| apply IH].
    eapply within_bind.
    + apply within_attempt with (Q := fun _ => True).
      within_auto ltac:(unfold spares; simpl;
                        first [reflexivity | by apply String.eqb_neq]).
    + intros [found' | ex] _; [apply IH | by apply within_ret].
Qed.

Lemma scale_items_skip items ids found s :
  Forall (fun kv => kv.1 <> g) items ->
  scale_items client items ids found g s = (s, Ok (found, None)).
Proof.
  induction 1 as [| [key value] items Hkey _ IH]; simpl; [reflexivity |].
  destruct (String.eqb_spec key g) as [-> | Hne]; [done | exact IH].
Qed.

Lemma unconfigured_items (asg_conf : gmap string scaling) :
  asg_conf !! g = None ->
  Forall (fun kv => kv.1 <> g) (map_to_list asg_conf).
Proof.
  intros Hnone. apply Forall_forall. intros [k v] Hin <-.
  apply elem_of_map_to_list in Hin. simpl in Hnone. congruence.
Qed.

Lemma start_instances_spares kw :
  PARAM_ASG_CONF kw !! g = None ->
  within (spares g) (fun _ => True) (fun _ => True) (start_instances client kw).
Proof.
  intros Hnone. apply unconfigured_items in Hnone.
  pose proof (fun Y ids found asg =>
                scale_items_spares Y (map_to_list (PARAM_ASG_CONF kw))
                                   ids found asg Hnone) as Hscale.
  within_auto ltac:(reflexivity).
Qed.

(** C9. A group that has no entry in the scaling configuration is never
    scaled by [start_instances]: the trace of the call holds no
    [update_auto_scaling_group] call for it; and the step that would
    scale it leaves the state as it is (no call, no log record) and the
    list of started groups as it is. *)
Theorem start_instances_skips_unconfigured_group kw (w : W) :
  PARAM_ASG_CONF kw !! g = None ->
  (forall desired min,
      Call (UpdateAutoScalingGroup g desired min)
      ∉ trace (start_instances client kw (init w)).1)
  /\ (forall ids found s,
         scale_up client (PARAM_ASG_CONF kw) ids found g s = (s, Ok found)).
Proof.
  intros Hnone. split.
  - intros desired min Hin.
    destruct (start_instances_spares kw Hnone (init w))
      as ((new & Htrace & Hnew) & _).
    simpl in Htrace. rewrite Htrace in Hin.
    rewrite Forall_forall in Hnew. specialize (Hnew _ Hin).
    unfold spares in Hnew. simpl in Hnew.
    by rewrite String.eqb_refl in Hnew.
  - intros ids found s. unfold scale_up, bind.
    by rewrite scale_items_skip by by apply unconfigured_items.
Qed.
End Unconfigured.

Lemma start_instances_skips_unconfigured_group_witness :
  PARAM_ASG_CONF (kw_start (plain_groups 3) (conf_for 2)) !! letter 2 = None
  /\ forall desired min,
       Call (UpdateAutoScalingGroup (letter 2) desired min)
       ∉ trace (run_start prompt (plain_groups 3) (conf_for 2)).1.
Proof.
  assert (H : PARAM_ASG_CONF (kw_start (plain_groups 3) (conf_for 2)) !! letter 2
              = None) by (vm_compute; reflexivity).
  split; [exact H |].
  apply (start_instances_skips_unconfigured_group
           (control_plane prompt) (letter 2)
           (kw_start (plain_groups 3) (conf_for 2)) 0 H).
Defined.

(** ** The verification step never gives up *)

Section Convergence.
Context {W : Type}.
Variable client : Client W.
Variable int_of_str : string -> option Z.
Variable instance_eq_str : Instance -> string -> bool.
Implicit Types (s : state W) (ids found : list string).

Lemma verify_stopped_bounded fmt Y asg_instance ids found count :
  count <= 2 ->
  within (not_warning fmt) Y
         (fun r => match r with
                   | Next (_, count') => count' <= count + 1
                   | Break => True
                   end)
         (verify_stopped client instance_eq_str asg_instance ids found count).
Proof.
  intros Hcount. unfold verify_stopped.
  case_bool_decide; [| apply within_ret; lia].
  apply within_bind_any; [within_auto ltac:(reflexivity) |]. intros _.
  apply within_bind_any; [within_auto ltac:(reflexivity) |]. intros found'.
  case_bool_decide; [by apply within_ret |].
  case_bool_decide; [lia |].
  apply within_ret. lia.
Qed.

Lemma verify_started_bounded fmt Y ids found count :
  count <= 2 ->
  within (not_warning fmt) Y
         (fun r => match r with
                   | Next count' => count' <= count + 1
                   | Break => True
                   end)
         (verify_started client ids found count).
Proof.
  intros Hcount. unfold verify_started.
  case_bool_decide; [| apply within_ret; lia].
  apply within_bind_any; [within_auto ltac:(reflexivity) |]. intros _.
  case_bool_decide; [by apply within_ret |].
  case_bool_decide; [lia |].
  apply within_ret. lia.
Qed.

Local Hint Resolve verify_stopped_bounded verify_started_bounded : within.
Local Hint Resolve scale_items_within : within.
Local Hint Extern 1 (not_warning _ _) => reflexivity : within.
Local Hint Extern 2 (_ <= _) => (simpl in *; lia) : within.

(** No call of [stop_instances] logs a not-stopping warning, whatever
    the control plane answers. *)
Lemma stop_instances_never_warns_not_stopping kw :
  within (not_warning WARNING_ASG_INSTANCE_NOT_STOPPING)
         (fun _ => True) (fun _ => True)
         (stop_instances client int_of_str instance_eq_str kw).
Proof. within_auto ltac:(reflexivity). Qed.

(** Nor does a call of [start_instances] log a not-starting warning. *)
Lemma start_instances_never_warns_not_starting kw :
  within (not_warning WARNING_ASG_INSTANCE_NOT_STARTING)
         (fun _ => True) (fun _ => True)
         (start_instances client kw).
Proof. within_auto ltac:(reflexivity). Qed.
End Convergence.

(** ** Replaying tagging calls *)

Section Replay.
Implicit Types (T : gmap (string * string) (string * bool)) (tr : list event).
Implicit Types (names remove_keys : list string) (tags : list tag).

Lemma replay_app tr1 tr2 T : replay (tr1 ++ tr2) T = replay tr2 (replay tr1 T).
Proof. apply foldl_app. Qed.

Lemma replay_cons e tr T : replay (e :: tr) T = replay tr (replay_event T e).
Proof. reflexivity. Qed.

Lemma replay_no_tag_call tr T :
  Forall (fun e => is_tag_call e = false) tr -> replay tr T = T.
Proof.
  intros H. revert T. induction H as [| e tr He _ IH]; intros T; [done |].
  rewrite replay_cons, IH. by destruct e as [| | []].
Qed.

Lemma replay_deletes_of asg remove_keys T g k :
  replay (map (fun k => Call (DeleteTags asg k)) remove_keys) T !! (g, k)
  = if bool_decide (g = asg /\ k ∈ remove_keys) then None else T !! (g, k).
Proof.
  revert T. induction remove_keys as [| k0 rk IH]; intros T.
  - rewrite bool_decide_eq_false_2; [done |]. intros [_ H]. by inversion H.
  - cbn [map]. rewrite replay_cons, IH. cbn [replay_event replay_call].
    destruct (decide (g = asg /\ k ∈ rk)) as [[-> Hk] | Hno].
    + rewrite !bool_decide_eq_true_2; [done | | done].
      split; [done | by right].
    + rewrite (bool_decide_eq_false_2 _ Hno).
      destruct (decide ((asg, k0) = (g, k))) as [[= -> ->] | Hne].
      * rewrite lookup_delete_eq, bool_decide_eq_true_2; [done |].
        split; [done | by left].
      * rewrite lookup_delete_ne by done.
        rewrite bool_decide_eq_false_2; [done |].
        intros [-> Hk]. apply elem_of_cons in Hk as [-> | Hk]; tauto.
Qed.

Lemma replay_delete_calls names remove_keys T g k :
  replay (delete_calls names remove_keys) T !! (g, k)
  = if bool_decide (g ∈ names /\ k ∈ remove_keys) then None else T !! (g, k).
Proof.
  revert T. induction names as [| asg names IH]; intros T.
  - rewrite bool_decide_eq_false_2; [done |]. intros [H _]. by inversion H.
  - unfold delete_calls in *. cbn [flat_map].
    rewrite replay_app, IH, replay_deletes_of.
    destruct (decide (g ∈ names /\ k ∈ remove_keys)) as [[Hg Hk] | Hno].
    + rewrite !bool_decide_eq_true_2; [done | | done].
      split; [by right | done].
    + rewrite (bool_decide_eq_false_2 _ Hno).
      destruct (decide (g = asg /\ k ∈ remove_keys)) as [[-> Hk] | Hno'].
      * rewrite !bool_decide_eq_true_2; [done | | done].
        split; [by left | done].
      * rewrite (bool_decide_eq_false_2 _ Hno').
        rewrite bool_decide_eq_false_2; [done |].
        intros [Hg Hk]. apply elem_of_cons in Hg as [-> | Hg]; tauto.
Qed.

Lemma dict_from_lookup (m : gmap string string) tags k :
  foldl (fun m t => <[Key t := Value t]> m) m tags !! k
  = match tag_value tags k with
    | Some v => Some v
    | None => m !! k
    end.
Proof.
  unfold tag_value, dict_of_tags.
  revert m. induction tags as [| t tags IH]; intros m; [done |].
  cbn [foldl]. rewrite IH, (IH (<[Key t:=Value t]> ∅)).
  destruct (foldl _ ∅ tags !! k); [done |].
  destruct (decide (Key t = k)) as [<- | Hne].
  - by rewrite !lookup_insert_eq.
  - by rewrite !lookup_insert_ne.
Qed.

Lemma tag_value_cons t tags k :
  tag_value (t :: tags) k
  = match tag_value tags k with
    | Some v => Some v
    | None => if bool_decide (Key t = k) then Some (Value t) else None
    end.
Proof.
  unfold tag_value at 1, dict_of_tags. cbn [foldl]. rewrite dict_from_lookup.
  destruct (tag_value tags k); [done |].
  case_bool_decide as Hk.
  - subst. by rewrite lookup_insert_eq.
  - by rewrite lookup_insert_ne.
Qed.

Lemma tag_value_is_Some tags k :
  k ∈ map Key tags <-> is_Some (tag_value tags k).
Proof.
  induction tags as [| t tags IH]; [by split; [inversion 1 | intros [? [=]]] |].
  rewrite tag_value_cons. cbn [map]. rewrite elem_of_cons, IH.
  destruct (tag_value tags k) as [v |].
  - split; [eauto | intros _; right; eauto].
  - case_bool_decide as Hk.
    + split; [eauto | intros _; by left].
    + split; [intros [-> | [? [=]]]; done | intros [? [=]]].
Qed.

Lemma replay_creates_of asg tags T g k :
  replay (map (fun t => Call (CreateOrUpdateTags asg (Key t) (Value t) false))
              tags) T !! (g, k)
  = if bool_decide (g = asg) then
      match tag_value tags k with
      | Some v => Some (v, false)
      | None => T !! (g, k)
      end
    else T !! (g, k).
Proof.
  revert T. induction tags as [| t tags IH]; intros T.
  - by case_bool_decide.
  - cbn [map]. rewrite replay_cons, IH, tag_value_cons.
    cbn [replay_event replay_call].
    case_bool_decide as Hg.
    + subst. destruct (tag_value tags k); [done |].
      case_bool_decide as Hk.
      * subst. by rewrite lookup_insert_eq.
      * rewrite lookup_insert_ne; [done | congruence].
    + rewrite lookup_insert_ne; [done | congruence].
Qed.

Lemma replay_create_calls names tags T g k :
  replay (create_calls names tags) T !! (g, k)
  = if bool_decide (g ∈ names) then
      match tag_value tags k with
      | Some v => Some (v, false)
      | None => T !! (g, k)
      end
    else T !! (g, k).
Proof.
  revert T. induction names as [| asg names IH]; intros T.
  - rewrite bool_decide_eq_false_2; [done | by inversion 1].
  - unfold create_calls in *. cbn [flat_map].
    rewrite replay_app, IH, replay_creates_of.
    destruct (decide (g ∈ names)) as [Hg | Hg].
    + rewrite (bool_decide_eq_true_2 (g ∈ names)) by done.
      rewrite (bool_decide_eq_true_2 (g ∈ asg :: names)) by by right.
      destruct (tag_value tags k); [done |].
      by destruct (bool_decide (g = asg)).
    + rewrite (bool_decide_eq_false_2 _ Hg).
      destruct (decide (g = asg)) as [-> | Ha].
      * rewrite bool_decide_eq_true_2 by done.
        rewrite bool_decide_eq_true_2; [done | by left].
      * rewrite (bool_decide_eq_false_2 _ Ha).
        rewrite bool_decide_eq_false_2; [done |].
        intros H. apply elem_of_cons in H as [-> | H]; tauto.
Qed.
End Replay.

(** ** The trace of a tag block *)

Section TagBlock.
Context {W : Type}.
Variable client : Client W.
Implicit Types (s : state W) (names remove_keys : list string).
Local Abbreviation M := (M (W:=W)).

Lemma appends_ret {A} (a : A) : appends (W:=W) (ret a) [].
Proof. intros s _. simpl. by rewrite app_nil_r. Qed.

Lemma appends_bind {A B} (c : M A) (k : A -> M B) l1 l2 :
  appends c l1 -> (forall a, appends (k a) l2) -> appends (bind c k) (l1 ++ l2).
Proof.
  intros Hc Hk s. unfold bind. specialize (Hc s).
  destruct (c s) as [s1 [a | e]]; simpl in *; [| done].
  intros Hok. rewrite Hk by done. rewrite Hc by done. by rewrite app_assoc.
Qed.

Lemma appends_log lv fmt args : appends (W:=W) (log lv fmt args) [Log lv fmt args].
Proof. by intros s _. Qed.

Lemma appends_invoke {A} (c : call) (op : W -> W * result A) :
  appends (invoke c op) [Call c].
Proof.
  intros s _. unfold invoke, bind, emit, on_world. simpl.
  by destruct (op (world s)) as [w r].
Qed.

Lemma appends_for_each {A} (l : list A) (body : A -> M unit) f :
  (forall x, appends (body x) (f x)) -> appends (for_each l body) (flat_map f l).
Proof.
  intros Hbody. induction l as [| x l IH]; simpl.
  - apply appends_ret.
  - apply appends_bind; [apply Hbody | intros _; apply IH].
Qed.

Lemma transition_tag_calls_appends rl al names remove_keys add_tags :
  appends (transition_tag_calls client rl al names remove_keys add_tags)
          (tag_block_events rl al names remove_keys add_tags).
Proof.
  unfold transition_tag_calls, tag_block_events.
  apply appends_bind; [| intros _].
  - case_bool_decide; [| apply appends_ret].
    apply (appends_bind _ _ [_]); [apply appends_log | intros _].
    apply appends_for_each. intros asg.
    apply (appends_for_each _ _ (fun k => [Call (DeleteTags asg k)])).
    intros k. apply appends_invoke.
  - case_bool_decide; [| apply appends_ret].
    apply (appends_bind _ _ [_]); [apply appends_log | intros _].
    apply appends_for_each. intros asg.
    apply (appends_for_each _ _
             (fun t => [Call (CreateOrUpdateTags asg (Key t) (Value t) false)])).
    intros k. apply appends_invoke.
Qed.
End TagBlock.

(** ** The tag transition law *)

Section BlockLaw.
Implicit Types (T : gmap (string * string) (string * bool)).
Implicit Types (names remove_keys : list string) (tags : list tag).

Lemma tag_block_lookup rl al names remove_keys tags T g k :
  replay (tag_block_events rl al names remove_keys tags) T !! (g, k)
  = if bool_decide (g ∈ names) then
      match tag_value tags k with
      | Some v => Some (v, false)
      | None => if bool_decide (k ∈ remove_keys) then None else T !! (g, k)
      end
    else T !! (g, k).
Proof.
  unfold tag_block_events. rewrite replay_app.
  set (T1 := replay (if bool_decide (0 < length remove_keys) then _ else _) T).
  assert (H1 : T1 !! (g, k)
               = if bool_decide (g ∈ names /\ k ∈ remove_keys)
                 then None else T !! (g, k)).
  { subst T1. destruct (decide (0 < length remove_keys)) as [Hlen | Hlen].
    - rewrite (bool_decide_eq_true_2 _ Hlen), replay_cons.
      apply replay_delete_calls.
    - rewrite (bool_decide_eq_false_2 _ Hlen).
      destruct remove_keys; [| simpl in Hlen; lia].
      rewrite bool_decide_eq_false_2; [done |]. intros [_ H]. by inversion H. }
  clearbody T1.
  assert (H2 : replay (if bool_decide (0 < length tags)
                       then Log INFO INF_ADD_KEYS
                                [AStr al; ATags tags; AStr (join "," names)]
                            :: create_calls names tags
                       else []) T1 !! (g, k)
               = if bool_decide (g ∈ names) then
                   match tag_value tags k with
                   | Some v => Some (v, false)
                   | None => T1 !! (g, k)
                   end
                 else T1 !! (g, k)).
  { destruct (decide (0 < length tags)) as [Hlen | Hlen].
    - rewrite (bool_decide_eq_true_2 _ Hlen), replay_cons.
      apply replay_create_calls.
    - rewrite (bool_decide_eq_false_2 _ Hlen).
      destruct tags; [| simpl in Hlen; lia].
      by destruct (bool_decide (g ∈ names)). }
  rewrite H2, H1.
  destruct (decide (g ∈ names)) as [Hg | Hg].
  - rewrite (bool_decide_eq_true_2 _ Hg).
    destruct (tag_value tags k); [done |].
    destruct (decide (k ∈ remove_keys)) as [Hk | Hk].
    + by rewrite (bool_decide_eq_true_2 (k ∈ remove_keys)),
                 bool_decide_eq_true_2.
    + rewrite (bool_decide_eq_false_2 (k ∈ remove_keys)) by done.
      rewrite bool_decide_eq_false_2; [done | tauto].
  - rewrite (bool_decide_eq_false_2 _ Hg).
    rewrite bool_decide_eq_false_2; [done | tauto].
Qed.

Lemma elem_of_keys_not_in (remove_tags : list tag) (other_keys : list string) k :
  k ∈ map Key (List.filter (fun t => negb (mem (Key t) other_keys)) remove_tags)
  <-> k ∈ map Key remove_tags /\ k ∉ other_keys.
Proof.
  rewrite !list_elem_of_In, !in_map_iff. split.
  - intros (t & <- & Ht). apply filter_In in Ht as [Ht Hmem].
    split; [eauto |]. unfold mem in Hmem.
    apply negb_true_iff, bool_decide_eq_false in Hmem.
    by rewrite <- list_elem_of_In.
  - intros [(t & <- & Ht) Hk]. exists t. split; [done |].
    apply filter_In. split; [done |]. unfold mem.
    apply negb_true_iff, bool_decide_eq_false. by rewrite list_elem_of_In.
Qed.

Lemma tag_block_law rl al names remove_tags add_tags T g :
  g ∈ names ->
  transition_law remove_tags add_tags g
    (replay (tag_block_events rl al names
               (map Key (List.filter
                           (fun t => negb (mem (Key t) (map Key add_tags)))
                           remove_tags))
               add_tags) T).
Proof.
  intros Hg. split.
  - intros k v _ _ Hv. rewrite tag_block_lookup, bool_decide_eq_true_2 by done.
    by rewrite Hv.
  - intros k Hrem Hadd. rewrite tag_block_lookup, bool_decide_eq_true_2 by done.
    destruct (tag_value add_tags k) as [v |] eqn:Hv.
    + exfalso. apply Hadd. apply tag_value_is_Some. eauto.
    + rewrite bool_decide_eq_true_2; [done |].
      by apply elem_of_keys_not_in.
Qed.

Lemma tag_block_frame rl al names remove_keys tags T g k :
  g ∉ names ->
  replay (tag_block_events rl al names remove_keys tags) T !! (g, k)
  = T !! (g, k).
Proof.
  intros Hg. by rewrite tag_block_lookup, bool_decide_eq_false_2.
Qed.
End BlockLaw.

(** ** The tags after [stop_instances] *)

Section Transition.
Context {W : Type}.
Variable client : Client W.
Variable int_of_str : string -> option Z.
Variable instance_eq_str : Instance -> string -> bool.
Variables (warn_fmt : string) (remove_tags add_tags : list tag).
Implicit Types (s : state W) (names : list string).
Local Abbreviation M := (M (W:=W)).
Local Abbreviation inv := (settled (W:=W) warn_fmt remove_tags add_tags).

Lemma preserves_ret {A} (I : state W -> Prop) (a : A) : preserves I (ret a).
Proof. by intros s Hs. Qed.

Lemma preserves_bind {A B} (I : state W -> Prop) (c : M A) (k : A -> M B) :
  preserves I c -> (forall a, preserves I (k a)) -> preserves I (bind c k).
Proof.
  intros Hc Hk s Hs. unfold bind. specialize (Hc s Hs).
  destruct (c s) as [s1 [a | e]]; [by apply Hk | exact Hc].
Qed.

Lemma preserves_for_break {A} (I : state W -> Prop) (l : list A)
      (body : A -> M (ctl unit)) :
  (forall x, preserves I (body x)) -> preserves I (for_break l body).
Proof.
  intros Hbody. induction l as [| x l IH]; simpl; [apply preserves_ret |].
  apply preserves_bind; [apply Hbody |].
  intros [[] |]; [exact IH | apply preserves_ret].
Qed.

(** A computation that makes no tagging call and yields nothing keeps
    the state settled. *)
Lemma settled_neutral {A} (c : M A) :
  within no_tag_call (fun _ => False) (fun _ => True) c -> preserves inv c.
Proof.
  intros Hc s Hs. destruct (Hc s) as ((new & Ht & Hnew) & (ys & Hy & Hys) & _).
  destruct ys as [| y ys]; [| by inversion Hys].
  rewrite app_nil_r in Hy. unfold settled.
  rewrite Ht, Hy. intros Hw g Hg T0.
  apply Forall_app in Hw as [Hw _].
  rewrite replay_app, (replay_no_tag_call new) by done. by apply Hs.
Qed.

(** The block that tags and reports keeps the state settled, when the
    keys it removes are those of [remove_tags] that [add_tags] lacks. *)
Lemma settled_tag_and_yield rl al reached names :
  preserves inv
    (tag_and_yield client warn_fmt rl al reached names
       (map Key (List.filter (fun t => negb (mem (Key t) (map Key add_tags)))
                             remove_tags))
       add_tags).
Proof.
  intros s Hs. rewrite tag_and_yield_run.
  case_bool_decide; [| exact Hs]. cbv zeta.
  rewrite apply_transition_tags_run. cbv zeta.
  pose proof (transition_tag_calls_no_yield client rl al names
                (map Key (List.filter
                            (fun t => negb (mem (Key t) (map Key add_tags)))
                            remove_tags)) add_tags s) as Hy.
  pose proof (transition_tag_calls_appends client rl al names
                (map Key (List.filter
                            (fun t => negb (mem (Key t) (map Key add_tags)))
                            remove_tags)) add_tags s) as Ht.
  destruct (transition_tag_calls client rl al names _ add_tags s)
    as [s1 [[] | ex]]; cbn [fst snd world trace yielded] in *.
  - specialize (Ht I). unfold settled.
    cbn [trace yielded]. rewrite Ht, Hy. intros Hw g Hg T0.
    apply Forall_app in Hw as [Hw _]. rewrite replay_app.
    destruct (decide (g ∈ names)) as [Hin | Hout].
    + by apply tag_block_law.
    + rewrite map_app, elem_of_app in Hg. destruct Hg as [Hg | Hg].
      * destruct (Hs Hw g Hg T0) as [Hboth Honly].
        split; intros k; intros; rewrite tag_block_frame by done; eauto.
      * exfalso. apply Hout. rewrite map_map in Hg. simpl in Hg.
        by rewrite map_id in Hg.
  - intros Hw. cbn [trace] in Hw. apply Forall_app in Hw as [_ Hw].
    inversion Hw as [| ? ? Hbad _]; subst. unfold not_warning in Hbad.
    simpl in Hbad. by rewrite String.eqb_refl in Hbad.
Qed.
End Transition.

Section StopTags.
Context {W : Type}.
Variable client : Client W.
Variable int_of_str : string -> option Z.
Variable instance_eq_str : Instance -> string -> bool.

Lemma stop_batch_settled remove_tags add_tags asg_instance :
  preserves (settled WARN_STOPPED_ASG_INSTANCES_TAGGING remove_tags add_tags)
    (stop_batch client int_of_str instance_eq_str
       (map Key (List.filter (fun t => negb (mem (Key t) (map Key add_tags)))
                             remove_tags))
       add_tags asg_instance).
Proof.
  unfold stop_batch. cbv zeta.
  do 4 (apply preserves_bind;
        [apply settled_neutral; within_auto ltac:(reflexivity) | intros ?]).
  apply preserves_bind;
    [apply settled_neutral; within_auto ltac:(reflexivity) | intros v1].
  destruct v1 as [[found_ecs count] |]; [| apply preserves_ret].
  apply preserves_bind;
    [apply settled_neutral; within_auto ltac:(reflexivity) | intros v2].
  destruct v2 as [[found_plain count'] |]; [| apply preserves_ret].
  repeat (apply preserves_bind; [apply settled_tag_and_yield | intros _]).
  apply preserves_ret.
Qed.

Lemma stop_instances_settled kw start_tags :
  started_tags (PARAM_CONFIG kw) = Some start_tags ->
  preserves (settled WARN_STOPPED_ASG_INSTANCES_TAGGING start_tags
                     (default [] (stopped_tags (PARAM_CONFIG kw))))
            (stop_instances client int_of_str instance_eq_str kw).
Proof.
  intros Hstart s Hs. unfold stop_instances. cbv zeta. rewrite Hstart.
  unfold keys_not_in, bind at 1, ret at 1.
  apply preserves_for_break; [| exact Hs].
  intros asg_instance.
  change (match stopped_tags (PARAM_CONFIG kw) with
          | Some l => l
          | None => []
          end) with (default [] (stopped_tags (PARAM_CONFIG kw))).
  apply stop_batch_settled.
Qed.

Lemma stop_instances_propagate_off kw :
  within (fun e => propagates e = false) (fun _ => True) (fun _ => True)
         (stop_instances client int_of_str instance_eq_str kw).
Proof. within_auto ltac:(reflexivity). Qed.

(** The keys that [keys_not_in] returns are not among the other keys. *)
Lemma keys_not_in_spec P Y tags other_keys :
  within (W:=W) P Y
         (fun keys => forall k, k ∈ keys -> k ∉ other_keys)
         (keys_not_in tags other_keys).
Proof.
  unfold keys_not_in. destruct tags as [l |]; [| apply within_raise].
  apply within_ret. intros k Hk. by apply elem_of_keys_not_in in Hk as [_ Hk].
Qed.

Lemma stop_instances_deletes kw :
  within (fun e => match e with
                   | Call (DeleteTags _ k) =>
                       k ∉ map Key (default [] (stopped_tags (PARAM_CONFIG kw)))
                   | _ => True
                   end)
         (fun _ => True) (fun _ => True)
         (stop_instances client int_of_str instance_eq_str kw).
Proof.
  unfold stop_instances. cbv zeta.
  eapply within_bind; [apply keys_not_in_spec |].
  intros remove_keys Hkeys.
  within_auto ltac:(first [exact I | by apply Hkeys]).
Qed.

(** C5. After a call of [stop_instances] during which no tagging
    warning was logged, take a group the call reported stopped and
    replay the tagging calls of the trace on any tags: a key of both the
    start tags and the stop tags has the value the stop tags give it, a
    key of the start tags that is not a key of the stop tags is absent,
    no delete call of the trace is for a key of the stop tags, and every
    create-or-update call of the trace has propagate-at-launch off. *)
Theorem stop_instances_tag_transition kw (w : W) start_tags g :
  let out := stop_instances client int_of_str instance_eq_str kw (init w) in
  let stop_tags := default [] (stopped_tags (PARAM_CONFIG kw)) in
  started_tags (PARAM_CONFIG kw) = Some start_tags ->
  Forall (not_warning WARN_STOPPED_ASG_INSTANCES_TAGGING) (trace out.1) ->
  (g, STATE_STOPPED) ∈ yielded out.1 ->
  forall T0,
    (forall k v, k ∈ map Key start_tags -> k ∈ map Key stop_tags ->
                 tag_value stop_tags k = Some v ->
                 replay (trace out.1) T0 !! (g, k) = Some (v, false))
    /\ (forall k, k ∈ map Key start_tags -> k ∉ map Key stop_tags ->
                  replay (trace out.1) T0 !! (g, k) = None)
    /\ (forall resource k,
           Call (DeleteTags resource k) ∈ trace out.1 -> k ∉ map Key stop_tags)
    /\ (forall resource k v propagate,
           Call (CreateOrUpdateTags resource k v propagate) ∈ trace out.1 ->
           propagate = false).
Proof.
  cbv zeta. intros Hstart Hquiet Hg T0.
  assert (Hinit : settled WARN_STOPPED_ASG_INSTANCES_TAGGING start_tags
                          (default [] (stopped_tags (PARAM_CONFIG kw)))
                          (init w)).
  { intros _ g' Hg'. by inversion Hg'. }
  pose proof (stop_instances_settled kw start_tags Hstart _ Hinit) as Hend.
  assert (Hin : g ∈ map fst (yielded
             (stop_instances client int_of_str instance_eq_str kw (init w)).1)).
  { apply list_elem_of_In, in_map_iff. exists (g, STATE_STOPPED).
    split; [done | by apply list_elem_of_In]. }
  destruct (Hend Hquiet g Hin T0) as [Hboth Honly].
  split; [exact Hboth | split; [exact Honly | split]].
  - intros resource k Hcall.
    destruct (stop_instances_deletes kw (init w))
      as ((new & Htrace & Hnew) & _).
    simpl in Htrace. rewrite Htrace in Hcall.
    rewrite Forall_forall in Hnew. exact (Hnew _ Hcall).
  - intros resource k v propagate Hcall.
    destruct (stop_instances_propagate_off kw (init w))
      as ((new & Htrace & Hnew) & _).
    simpl in Htrace. rewrite Htrace in Hcall.
    rewrite Forall_forall in Hnew. exact (Hnew _ Hcall).
Qed.
End StopTags.

(** With distinct keys, the value a list of tags gives a key is that of
    the one tag with the key. *)
Lemma tag_value_NoDup (tags : list tag) (t : tag) :
  NoDup (map Key tags) -> t ∈ tags -> tag_value tags (Key t) = Some (Value t).
Proof.
  induction tags as [| t0 tags IH]; [by inversion 2 |].
  cbn [map]. intros Hnd Hin. apply NoDup_cons in Hnd as [Hfresh Hnd].
  rewrite tag_value_cons.
  apply elem_of_cons in Hin as [-> | Hin].
  - destruct (tag_value tags (Key t0)) as [v |] eqn:Hv.
    + exfalso. apply Hfresh. apply tag_value_is_Some. eauto.
    + by rewrite bool_decide_eq_true_2.
  - by rewrite IH.
Qed.

Lemma stop_instances_tag_transition_witness :
  let out := run_stop prompt [plain "asg-A"] in
  started_tags the_config = Some [Tag "state" "started"; Tag "started-by" "scheduler"]
  /\ Forall (not_warning WARN_STOPPED_ASG_INSTANCES_TAGGING) (trace out.1)
  /\ ("asg-A", STATE_STOPPED) ∈ yielded out.1
  /\ replay (trace out.1) {[ ("asg-A", "state") := ("started", true);
                             ("asg-A", "started-by") := ("scheduler", true) ]}
      !! ("asg-A", "state") = Some ("stopped", false)
  /\ replay (trace out.1) {[ ("asg-A", "state") := ("started", true);
                             ("asg-A", "started-by") := ("scheduler", true) ]}
      !! ("asg-A", "started-by") = None.
Proof.
  cbv zeta.
  assert (H1 : started_tags (PARAM_CONFIG (kw_stop [plain "asg-A"]))
               = Some [Tag "state" "started"; Tag "started-by" "scheduler"])
    by reflexivity.
  assert (H2 : Forall (not_warning WARN_STOPPED_ASG_INSTANCES_TAGGING)
                      (trace (run_stop prompt [plain "asg-A"]).1)).
  { vm_compute. repeat constructor. }
  assert (H3 : ("asg-A", STATE_STOPPED)
               ∈ yielded (run_stop prompt [plain "asg-A"]).1).
  { vm_compute. left. }
  destruct (stop_instances_tag_transition
              (control_plane prompt) decimal never_equal
              (kw_stop [plain "asg-A"]) 0 _ "asg-A" H1 H2 H3
              {[ ("asg-A", "state") := ("started", true);
                 ("asg-A", "started-by") := ("scheduler", true) ]})
    as (Hboth & Honly & _ & _).
  split; [exact H1 | split; [exact H2 | split; [exact H3 | split]]].
  - apply Hboth; [vm_compute; left | vm_compute; left | vm_compute; reflexivity].
  - apply Honly.
    + vm_compute. right. left.
    + vm_compute. intros H. inversion H as [| ? ? ? H']; subst. inversion H'.
Defined.

(** * Further properties *)

(** ** Batches by position *)

Section BatchesByPosition.
Context {A : Type}.
Implicit Types (l buffer : list A) (size i : nat).

Lemma batches_from_short size l buffer :
  size = 0 \/ length buffer + length l < size ->
  batches_from buffer l size
  = match buffer ++ l with
    | [] => []
    | _ :: _ => [buffer ++ l]
    end.
Proof.
  revert buffer. induction l as [| x l IH]; intros buffer Hshort; simpl.
  - rewrite app_nil_r. by destruct buffer.
  - rewrite bool_decide_eq_false_2
      by (rewrite length_app; simpl in *; lia).
    rewrite IH by (rewrite length_app; simpl in *; lia).
    rewrite <- app_assoc. simpl. by destruct buffer.
Qed.

Lemma batches_from_full size l buffer :
  0 < size -> length buffer < size -> size <= length buffer + length l ->
  batches_from buffer l size
  = (buffer ++ take (size - length buffer) l)
      :: batches_from [] (drop (size - length buffer) l) size.
Proof.
  intros Hsize. revert buffer.
  induction l as [| x l IH]; intros buffer Hlt Hge; simpl in *; [lia |].
  destruct (decide (length (buffer ++ [x]) = size)) as [Hfull | Hnot].
  - rewrite bool_decide_eq_true_2 by done.
    rewrite length_app in Hfull. simpl in Hfull.
    replace (size - length buffer) with 1 by lia. simpl.
    by rewrite take_0, drop_0.
  - rewrite bool_decide_eq_false_2 by done.
    rewrite length_app in Hnot. simpl in Hnot.
    rewrite IH by (rewrite ?length_app; simpl; lia).
    rewrite length_app. simpl.
    replace (size - length buffer) with (S (size - (length buffer + 1))) by lia.
    simpl. by rewrite <- app_assoc.
Qed.

Lemma instance_batches_unfold size l :
  0 < size ->
  instance_batches l size
  = match l with
    | [] => []
    | _ :: _ => take size l :: instance_batches (drop size l) size
    end.
Proof.
  intros Hsize. unfold instance_batches.
  destruct (decide (size <= length l)) as [Hge | Hlt].
  - rewrite batches_from_full by (simpl; lia). simpl.
    rewrite Nat.sub_0_r. destruct l; [simpl in Hge; lia | done].
  - rewrite batches_from_short by (simpl; lia). simpl.
    destruct l as [| x l]; [done |].
    rewrite take_ge by lia. rewrite drop_ge by lia. done.
Qed.

(** X1. The batch at position [i] is the slice of the input that starts at
    [i * size] and holds up to [size] elements; there is one exactly
    when [i * size] is a position of the input.  Hence the number of
    batches, times [size], covers the input with less than [size] to
    spare. *)
Theorem instance_batches_by_position size l :
  0 < size ->
  (forall i,
      instance_batches l size !! i
      = if bool_decide (i * size < length l)
        then Some (take size (drop (i * size) l)) else None)
  /\ length l <= length (instance_batches l size) * size
  /\ length (instance_batches l size) * size < length l + size.
Proof.
  intros Hsize.
  assert (Hpos : forall i l,
             instance_batches l size !! i
             = if bool_decide (i * size < length l)
               then Some (take size (drop (i * size) l)) else None).
  { clear l. induction i as [| i IH]; intros l.
    - rewrite instance_batches_unfold by done.
      by destruct l.
    - rewrite instance_batches_unfold by done.
      destruct l as [| x l].
      { rewrite bool_decide_eq_false_2; [done | simpl; lia]. }
      cbn [lookup list_lookup]. rewrite IH, length_drop, drop_drop.
      replace (size + i * size) with (S i * size) by lia.
      destruct (decide (S i * size < length (x :: l))) as [Hin | Hout].
      + by rewrite !bool_decide_eq_true_2 by lia.
      + by rewrite !bool_decide_eq_false_2 by lia. }
  split; [intros i; apply Hpos | split].
  - pose proof (Hpos (length (instance_batches l size)) l) as Hend.
    rewrite lookup_ge_None_2 in Hend by lia.
    case_bool_decide; [done | lia].
  - destruct (length (instance_batches l size)) as [| n] eqn:Hn; [lia |].
    pose proof (Hpos n l) as Hlast.
    destruct (lookup_lt_is_Some_2 (instance_batches l size) n) as [b Hb];
      [lia |].
    rewrite Hb in Hlast. case_bool_decide; [lia | done].
Qed.

(** X2. With size 0, or with a size larger than the input, a non-empty input
    comes back as one batch, and an empty input as none. *)
Theorem instance_batches_single size l :
  size = 0 \/ length l < size ->
  instance_batches l size = match l with [] => [] | _ :: _ => [l] end.
Proof.
  intros Hshort. unfold instance_batches.
  by rewrite batches_from_short by (simpl; lia).
Qed.
End BatchesByPosition.

Lemma instance_batches_by_position_witness :
  0 < 5 /\ instance_batches [1; 2; 3; 4; 5; 6; 7] 5 !! 1 = Some [6; 7].
Proof.
  split; [lia |].
  destruct (instance_batches_by_position 5 [1; 2; 3; 4; 5; 6; 7]) as [H _];
    [lia |].
  rewrite (H 1). reflexivity.
Defined.

Lemma instance_batches_single_witness :
  (0 = 0 \/ length [1; 2; 3] < 0) /\ instance_batches [1; 2; 3] 0 = [[1; 2; 3]].
Proof.
  assert (H : 0 = 0 \/ length [1; 2; 3] < 0) by (left; reflexivity).
  split; [exact H |].
  exact (instance_batches_single 0 [1; 2; 3] H).
Defined.

(** ** Which exceptions a computation lets through *)

Section RaisesOnly.
Context {W : Type}.
Implicit Types (E : exn -> Prop) (s : state W).
Local Abbreviation M := (M (W:=W)).

Lemma raises_only_any {A} (c : M A) : raises_only (fun _ => True) c.
Proof. by intros s e _. Qed.

Lemma raises_only_weaken {A} E E' (c : M A) :
  raises_only E c -> (forall e, E e -> E' e) -> raises_only E' c.
Proof. intros Hc HE s e He. eauto. Qed.

Lemma raises_only_ret {A} E (a : A) : raises_only (W:=W) E (ret a).
Proof. by intros s e. Qed.

Lemma raises_only_raise {A} E e : E e -> raises_only (W:=W) (A:=A) E (raise e).
Proof. by intros He s e' [= <-]. Qed.

Lemma raises_only_bind {A B} E (c : M A) (k : A -> M B) :
  raises_only E c -> (forall a, raises_only E (k a)) ->
  raises_only E (bind c k).
Proof.
  intros Hc Hk s e. unfold bind. specialize (Hc s).
  destruct (c s) as [s1 [a | e1]]; simpl in *; [apply Hk | intros [= <-]; eauto].
Qed.

Lemma raises_only_try_except {A} E E' (c : M A) (catches : exn -> bool)
      (h : exn -> M A) :
  raises_only E' c ->
  (forall e, E' e -> if catches e then raises_only E (h e) else E e) ->
  raises_only E (try_except c catches h).
Proof.
  intros Hc Hh s e. unfold try_except. specialize (Hc s).
  destruct (c s) as [s1 [a | e1]]; simpl in *; [done |].
  specialize (Hh e1 (Hc e1 eq_refl)).
  destruct (catches e1); [apply Hh | by intros [= <-]].
Qed.

Lemma raises_only_attempt {A} E (c : M A) : raises_only E (attempt c).
Proof. intros s e. unfold attempt. by destruct (c s). Qed.

Lemma raises_only_emit E ev : raises_only (W:=W) E (emit ev).
Proof. by intros s e. Qed.

Lemma raises_only_log E lv fmt args : raises_only (W:=W) E (log lv fmt args).
Proof. by intros s e. Qed.

Lemma raises_only_yield E p : raises_only (W:=W) E (yield p).
Proof. by intros s e. Qed.

Lemma raises_only_on_world {A} E (op : W -> W * result A) :
  (forall w e, (op w).2 = Raise e -> E e) -> raises_only E (on_world op).
Proof.
  intros Hop s e. unfold on_world. specialize (Hop (world s)).
  destruct (op (world s)) as [w r]. simpl in *. apply Hop.
Qed.

Lemma raises_only_for_each {A} E (l : list A) (body : A -> M unit) :
  (forall x, x ∈ l -> raises_only E (body x)) -> raises_only E (for_each l body).
Proof.
  induction l as [| x l IH]; intros Hb; simpl; [apply raises_only_ret |].
  apply raises_only_bind; [apply Hb; by left |].
  intros _. apply IH. intros y Hy. apply Hb. by right.
Qed.

Lemma raises_only_for_acc {A B} E (l : list A) (acc : B) (body : B -> A -> M B) :
  (forall acc x, x ∈ l -> raises_only E (body acc x)) ->
  raises_only E (for_acc l acc body).
Proof.
  revert acc. induction l as [| x l IH]; intros acc Hb; simpl;
    [apply raises_only_ret |].
  apply raises_only_bind; [apply Hb; by left |].
  intros acc'. apply IH. intros a y Hy. apply Hb. by right.
Qed.

Lemma raises_only_for_break {A} E (l : list A) (body : A -> M (ctl unit)) :
  (forall x, x ∈ l -> raises_only E (body x)) -> raises_only E (for_break l body).
Proof.
  induction l as [| x l IH]; intros Hb; simpl; [apply raises_only_ret |].
  apply raises_only_bind; [apply Hb; by left |].
  intros [[] |]; [| apply raises_only_ret].
  apply IH. intros y Hy. apply Hb. by right.
Qed.
End RaisesOnly.

Create HintDb raises.

(** One structural step on a [raises_only] goal. *)
Ltac raises_step :=
  lazymatch goal with
  | |- raises_only _ (bind _ _) => apply raises_only_bind; [| intros ?]
  | |- raises_only _ (ret _) => apply raises_only_ret
  | |- raises_only _ (raise _) => apply raises_only_raise
  | |- raises_only _ (attempt _) => apply raises_only_attempt
  | |- raises_only _ (emit _) => apply raises_only_emit
  | |- raises_only _ (log _ _ _) => apply raises_only_log
  | |- raises_only _ (yield _) => apply raises_only_yield
  | |- raises_only _ (on_world _) => apply raises_only_on_world; intros ? ?
  | |- raises_only _ (for_each _ _) => apply raises_only_for_each; intros ? ?
  | |- raises_only _ (for_acc _ _ _) => apply raises_only_for_acc; intros ? ? ?
  | |- raises_only _ (for_break _ _) => apply raises_only_for_break; intros ? ?
  | |- raises_only _ (try_except _ (fun _ => true) _) =>
      eapply raises_only_try_except; [apply raises_only_any | intros ? _; cbv beta]
  | |- raises_only _ (if ?b then _ else _) => destruct b
  | |- raises_only _ (match ?x with _ => _ end) => destruct x
  | |- raises_only _ (let _ := _ in _) => cbv zeta
  | |- raises_only _ ?c => let h := head_of c in unfold h
  end.

Ltac raises_auto tac :=
  repeat (first [ solve [eauto with raises] | raises_step ]; try solve [tac]).

(** ** Exceptions of the service *)

Section Escapes.
Context {W : Type}.
Variable client : Client W.
Variable int_of_str : string -> option Z.
Variable instance_eq_str : Instance -> string -> bool.
Implicit Types (E : exn -> Prop) (s : state W) (ids found : list string).

Lemma sleep_never_raises E secs : raises_only E (sleep client secs).
Proof. raises_auto ltac:(simpl in *; discriminate). Qed.

Lemma tag_and_yield_never_raises E warn_fmt rl al reached names remove_keys add_tags :
  raises_only E (tag_and_yield client warn_fmt rl al reached names
                               remove_keys add_tags).
Proof.
  intros s e. rewrite tag_and_yield_run. by case_bool_decide.
Qed.

Lemma scale_down_never_raises E ids found asg :
  raises_only E (scale_down client ids found asg).
Proof. raises_auto idtac. Qed.

Lemma scale_items_never_raises E items ids found asg :
  raises_only E (scale_items client items ids found asg).
Proof.
  revert found. induction items as [| [key value] items IH]; intros found; simpl.
  - apply raises_only_ret.
  - destruct (String.eqb key asg); [| apply IH].
    apply raises_only_bind; [apply raises_only_attempt |].
    intros [found' | ex]; [apply IH | apply raises_only_ret].
Qed.

Local Hint Resolve sleep_never_raises tag_and_yield_never_raises
      scale_down_never_raises scale_items_never_raises : raises.

Lemma verify_started_never_raises E ids found count :
  raises_only E (verify_started client ids found count).
Proof. raises_auto idtac. Qed.

Lemma get_timeout_raises asg :
  raises_only (fun e => is_ClientError e = false)
              (get_asg_termination_lifecycle_hook_timeout client asg).
Proof.
  unfold get_asg_termination_lifecycle_hook_timeout.
  eapply raises_only_try_except; [apply raises_only_any |].
  intros [] _; simpl; try reflexivity. raises_auto idtac.
Qed.

Lemma prepare_for_stop_raises asg :
  raises_only (fun e => is_ClientError e = false)
              (prepare_for_stop client int_of_str asg).
Proof.
  unfold prepare_for_stop.
  eapply raises_only_try_except; [apply raises_only_any |].
  intros [] _; simpl; try reflexivity. raises_auto idtac.
Qed.

Lemma prepare_for_start_raises asg :
  raises_only (fun e => is_ClientError e = false) (prepare_for_start client asg).
Proof.
  unfold prepare_for_start.
  eapply raises_only_try_except; [apply raises_only_any |].
  intros [] _; simpl; try reflexivity. raises_auto idtac.
Qed.

(** X3. The lifecycle-hook preparation and the read of the heartbeat
    timeout never end with a [ClientError]: they end normally or with an
    exception of another class. *)
Theorem hook_preparation_swallows_client_errors asg s :
  no_client_error (prepare_for_stop client int_of_str asg s).2
  /\ no_client_error (prepare_for_start client asg s).2
  /\ no_client_error (get_asg_termination_lifecycle_hook_timeout client asg s).2.
Proof.
  pose proof (prepare_for_stop_raises asg s) as H1.
  pose proof (prepare_for_start_raises asg s) as H2.
  pose proof (get_timeout_raises asg s) as H3.
  repeat split.
  - destruct (prepare_for_stop client int_of_str asg s).2; simpl; auto.
  - destruct (prepare_for_start client asg s).2; simpl; auto.
  - destruct (get_asg_termination_lifecycle_hook_timeout client asg s).2;
      simpl; auto.
Qed.

Local Hint Resolve verify_started_never_raises : raises.

Lemma start_batch_raises asg_conf stop_tags_keys start_tags asg_instance :
  raises_only (fun e => is_ClientError e = false)
              (start_batch client asg_conf stop_tags_keys start_tags asg_instance).
Proof.
  pose proof prepare_for_start_raises.
  raises_auto idtac.
Qed.

(** X4. Whatever the control plane does, [start_instances] never ends with
    a [ClientError]. *)
Theorem start_instances_never_raises_client_error kw s :
  no_client_error (start_instances client kw s).2.
Proof.
  assert (Hr : raises_only (fun e => is_ClientError e = false)
                           (start_instances client kw)).
  { pose proof start_batch_raises. raises_auto ltac:(reflexivity). }
  specialize (Hr s).
  destruct (start_instances client kw s).2; simpl; auto.
Qed.

Lemma instance_batches_Forall {A} (P : A -> Prop) (l : list A) size :
  Forall P l -> Forall (Forall P) (instance_batches l size).
Proof.
  unfold instance_batches.
  assert (H : forall buffer, Forall P buffer -> Forall P l ->
                             Forall (Forall P) (batches_from buffer l size)).
  { induction l as [| x l IH]; intros buffer Hb Hl; simpl.
    - case_bool_decide; [by constructor | constructor].
    - apply Forall_cons in Hl as [Hx Hl].
      assert (Forall P (buffer ++ [x])) by (apply Forall_app; by repeat constructor).
      case_bool_decide; [constructor; [done |] |]; apply IH; by try constructor. }
  intros Hl. apply H; [constructor | done].
Qed.

Lemma instance_batches_all_plain (l : list Instance) size :
  all_plain l -> Forall all_plain (instance_batches l size).
Proof. apply instance_batches_Forall. Qed.

Lemma ecs_ids_of_plain (l : list Instance) : all_plain l -> ecs_ids_of l = [].
Proof.
  unfold ecs_ids_of. induction 1 as [| i l Hi _ IH]; simpl; [done |].
  by rewrite Hi.
Qed.

Lemma stop_batch_raises start_tags_keys stop_tags asg_instance :
  raises_only (fun e => from_describe client e \/ is_ClientError e = false)
              (stop_batch client int_of_str instance_eq_str
                          start_tags_keys stop_tags asg_instance).
Proof.
  pose proof (fun asg => raises_only_weaken _
                (fun e => from_describe client e \/ is_ClientError e = false) _
                (prepare_for_stop_raises asg) (fun e H => or_intror H)).
  raises_auto ltac:(left; unfold from_describe; eauto).
Qed.

Lemma stop_batch_plain_raises start_tags_keys stop_tags asg_instance :
  all_plain asg_instance ->
  raises_only (from_describe client)
              (stop_batch client int_of_str instance_eq_str
                          start_tags_keys stop_tags asg_instance).
Proof.
  intros Hplain. unfold stop_batch. cbv zeta.
  rewrite (ecs_ids_of_plain _ Hplain).
  raises_auto ltac:(first [ by match goal with H : _ ∈ [] |- _ => inversion H end
                          | unfold from_describe; eauto ]).
Qed.

Lemma start_batch_plain_raises E asg_conf stop_tags_keys start_tags asg_instance :
  all_plain asg_instance ->
  raises_only E (start_batch client asg_conf stop_tags_keys start_tags
                             asg_instance).
Proof.
  intros Hplain. unfold start_batch. cbv zeta.
  rewrite (ecs_ids_of_plain _ Hplain).
  raises_auto ltac:(by match goal with H : _ ∈ [] |- _ => inversion H end).
Qed.

(** X5. A [ClientError] that [stop_instances] ends with was raised by a
    describe call; so was any exception it ends with when no group of
    the input is flagged ECS and the start tags are given. *)
Theorem stop_instances_exceptions_from_describe kw s e :
  (stop_instances client int_of_str instance_eq_str kw s).2 = Raise e ->
  (is_ClientError e = true -> from_describe client e)
  /\ (all_plain (PARAM_STOPPED_INSTANCES kw) ->
      is_Some (started_tags (PARAM_CONFIG kw)) ->
      from_describe client e).
Proof.
  intros Hraise. split.
  - intros Hce.
    assert (Hr : raises_only
                   (fun e => from_describe client e \/ is_ClientError e = false)
                   (stop_instances client int_of_str instance_eq_str kw)).
    { pose proof stop_batch_raises. raises_auto ltac:(by right). }
    destruct (Hr s e Hraise) as [H | H]; [done | congruence].
  - intros Hplain [start_tags Hstart].
    assert (Hr : raises_only (from_describe client)
                   (stop_instances client int_of_str instance_eq_str kw)).
    { unfold stop_instances. cbv zeta. rewrite Hstart.
      apply raises_only_bind; [apply raises_only_ret | intros keys].
      apply raises_only_for_break. intros b Hb.
      apply stop_batch_plain_raises.
      pose proof (instance_batches_all_plain _ STOP_BATCH_SIZE Hplain) as Hall.
      rewrite Forall_forall in Hall. by apply Hall. }
    exact (Hr s e Hraise).
Qed.

(** X6. When no group of the input is flagged ECS and the stop tags are
    given, [start_instances] ends without an exception, whatever the
    control plane does. *)
Theorem start_instances_plain_never_raises kw s :
  all_plain (PARAM_STARTED_INSTANCES kw) ->
  is_Some (stopped_tags (PARAM_CONFIG kw)) ->
  (start_instances client kw s).2 = Ok tt.
Proof.
  intros Hplain [stop_tags Hstop].
  assert (Hr : raises_only (fun _ => False) (start_instances client kw)).
  { unfold start_instances. cbv zeta. rewrite Hstop.
    apply raises_only_bind; [apply raises_only_ret | intros keys].
    apply raises_only_for_break. intros b Hb.
    apply start_batch_plain_raises.
    pose proof (instance_batches_all_plain _ START_BATCH_SIZE Hplain) as Hall.
    rewrite Forall_forall in Hall. by apply Hall. }
  specialize (Hr s).
  destruct (start_instances client kw s).2 as [[] | e]; [done |].
  destruct (Hr e eq_refl).
Qed.
End Escapes.

Lemma stop_instances_exceptions_from_describe_witness :
  (stop_instances throttled decimal never_equal (kw_stop [plain "asg-A"])
                  (init 0)).2 = Raise (ClientError "Throttling")
  /\ from_describe throttled (ClientError "Throttling").
Proof.
  assert (H : (stop_instances throttled decimal never_equal
                              (kw_stop [plain "asg-A"]) (init 0)).2
              = Raise (ClientError "Throttling")) by (vm_compute; reflexivity).
  split; [exact H |].
  destruct (stop_instances_exceptions_from_describe
              throttled decimal never_equal _ _ _ H) as [Hclient _].
  apply Hclient. reflexivity.
Defined.

Lemma start_instances_plain_never_raises_witness :
  all_plain (PARAM_STARTED_INSTANCES (kw_start (plain_groups 3) (conf_for 2)))
  /\ (run_start prompt (plain_groups 3) (conf_for 2)).2 = Ok tt.
Proof.
  assert (H : all_plain (PARAM_STARTED_INSTANCES
                           (kw_start (plain_groups 3) (conf_for 2))))
    by (repeat constructor).
  split; [exact H |].
  apply (start_instances_plain_never_raises (control_plane prompt) _ (init 0) H).
  simpl. eauto.
Defined.

(** ** The record of a discovered group *)

Section Record.
Context {W : Type}.
Implicit Types (s : state W).

(** X7. The record [_select_instance_data] builds carries the name of the
    group as id and as name, the value of the schedule tag (of its last
    occurrence) as schedule, a running flag that is the negation of the
    terminated flag and is set exactly when an instance is in service,
    and a current state equal to the state; building it changes neither
    the world nor the yielded pairs. *)
Theorem select_instance_data_record (asg : asg_descr) (tagname : string) s :
  exists d s',
    _select_instance_data asg tagname s = (s', Ok d)
    /\ INST_ID d = AutoScalingGroupName asg
    /\ INST_NAME d = AutoScalingGroupName asg
    /\ INST_SCHEDULE d = match Tags asg with
                         | Some l => tag_value l tagname
                         | None => None
                         end
    /\ INST_ASG_DESIRED_CAPACITY d = DesiredCapacity asg
    /\ INST_ASG_MIN_SIZE d = MinSize asg
    /\ INST_IS_RUNNING d = negb (INST_IS_TERMINATED d)
    /\ (INST_IS_RUNNING d = true <-> 0 < InstanceNumber asg)
    /\ INST_CURRENT_STATE d = INST_STATE d
    /\ world s' = world s
    /\ yielded s' = yielded s.
Proof.
  eexists. eexists. split; [reflexivity |]. cbn.
  repeat split; try (by destruct (Tags asg)).
  all: destruct (decide (InstanceNumber asg = 0)) as [H | H];
    [rewrite (bool_decide_eq_true_2 _ H) | rewrite (bool_decide_eq_false_2 _ H)];
    try done; try (intros; lia).
Qed.

(** X8. The ECS flag of the record is the string true when the last tag with
    key aws:cloudformation:logical-id has the value ECSAutoScalingGroup,
    and the string false otherwise (no such tag, another value, no tags);
    so it is exactly then that [is_ecs] holds of an instance object with
    that flag. *)
Theorem select_instance_data_ecs_flag (asg : asg_descr) (tagname : string) s :
  exists d s',
    _select_instance_data asg tagname s = (s', Ok d)
    /\ INST_ASG_IS_ECS d
       = (if bool_decide (match Tags asg with
                          | Some l => tag_value l "aws:cloudformation:logical-id"
                          | None => None
                          end = Some "ECSAutoScalingGroup")
          then "true" else "false")
    /\ (is_ecs {| id := INST_ID d; asg_is_ecs := INST_ASG_IS_ECS d |} = true
        <-> exists l, Tags asg = Some l
                      /\ tag_value l "aws:cloudformation:logical-id"
                         = Some "ECSAutoScalingGroup").
Proof.
  eexists. eexists. split; [reflexivity |]. cbn [INST_ASG_IS_ECS INST_ID].
  unfold is_ecs. cbn [asg_is_ecs]. destruct (Tags asg) as [l |].
  - unfold tag_value. split; [reflexivity |].
    case_bool_decide as H; split; try done.
    + eauto.
    + intros (l' & [= <-] & H'). done.
  - split; [by rewrite lookup_empty |].
    rewrite lookup_empty. rewrite bool_decide_eq_false_2 by done.
    split; [done | by intros (l & [=] & _)].
Qed.
End Record.

(** ** The termination hook and its heartbeat timeout *)

Lemma prefix_spec (sub s : string) :
  String.prefix sub s = true <-> exists post, s = sub +:+ post.
Proof.
  revert s. induction sub as [| a sub IH]; intros s.
  - destruct s; simpl; (split; [intros _; by eexists | done]).
  - destruct s as [| b s]; simpl; [split; [done | intros [post [=]]] |].
    destruct (ascii_dec a b) as [<- | Hne].
    + rewrite IH. split; intros [post Hpost]; exists post; [by rewrite Hpost |].
      by injection Hpost.
    + split; [done | intros [post [= ? ?]]; done].
Qed.

Lemma contains_spec (s sub : string) :
  contains s sub = true <-> exists pre post, s = pre +:+ sub +:+ post.
Proof.
  induction s as [| c s IH]; cbn [contains].
  - rewrite orb_false_r, prefix_spec. split.
    + intros [post Hpost]. by exists "", post.
    + intros (pre & post & Hs). destruct pre; [by exists post |]. done.
  - rewrite orb_true_iff, prefix_spec, IH. split.
    + intros [[post Hpost] | (pre & post & Hs)].
      * by exists "", post.
      * exists (String c pre), post. simpl. by rewrite Hs.
    + intros (pre & post & Hs). destruct pre as [| c' pre].
      * left. by exists post.
      * right. injection Hs as _ Hs. by exists pre, post.
Qed.

Section Hooks.
Context {W : Type}.
Variable client : Client W.
Variable int_of_str : string -> option Z.
Implicit Types (s : state W).

(** X9. [get_asg_termination_lifecycle_hook_name] hands a failure of the
    lookup on; otherwise it returns, in their order, the hooks whose name
    has Termination as a substring, and no other. *)
Theorem termination_hooks_are_filtered asg s :
  match describe_lifecycle_hooks client asg (world s) with
  | (_, Raise e) =>
      (get_asg_termination_lifecycle_hook_name client asg s).2 = Raise e
  | (_, Ok hooks) =>
      exists l,
        (get_asg_termination_lifecycle_hook_name client asg s).2 = Ok l
        /\ sublist l hooks
        /\ forall h, h ∈ l <-> h ∈ hooks
                               /\ exists pre post,
                                    h = pre +:+ "Termination" +:+ post
  end.
Proof.
  unfold get_asg_termination_lifecycle_hook_name, call_describe_hooks, invoke,
    bind, emit, on_world, ret. simpl.
  destruct (describe_lifecycle_hooks client asg (world s)) as [w [hooks | e]];
    simpl; [| done].
  eexists. split; [reflexivity |]. split.
  - induction hooks as [| h hooks IH]; simpl; [constructor |].
    destruct (contains h "Termination"); by constructor.
  - intros h. rewrite list_elem_of_In, filter_In, <- list_elem_of_In.
    by rewrite contains_spec.
Qed.

(** X10. When the group has a termination hook, [prepare_for_stop] puts on the
    first one the heartbeat timeout that the parameter store gives, read
    as an integer, and 300 when the parameter store raises a
    [ClientError]; [prepare_for_start] puts 3600. *)
Theorem heartbeat_timeout_put asg s w1 hooks h rest :
  describe_lifecycle_hooks client asg (world s) = (w1, Ok hooks) ->
  List.filter (fun h => contains h "Termination") hooks = h :: rest ->
  Call (PutLifecycleHook asg h 3600) ∈ trace (prepare_for_start client asg s).1
  /\ match get_parameter client
                        ("/ecs/" +:+ asg +:+ "/lifecyclehook/heatbeat/timeout")
                        true w1 with
     | (_, Ok v) =>
         match int_of_str v with
         | Some z =>
             Call (PutLifecycleHook asg h z)
             ∈ trace (prepare_for_stop client int_of_str asg s).1
         | None =>
             (prepare_for_stop client int_of_str asg s).2 = Raise ValueError
         end
     | (_, Raise (ClientError _)) =>
         Call (PutLifecycleHook asg h 300)
         ∈ trace (prepare_for_stop client int_of_str asg s).1
     | (_, Raise e) => (prepare_for_stop client int_of_str asg s).2 = Raise e
     end.
Proof.
  intros Hhooks Hfirst. split.
  - unfold prepare_for_start, try_except, get_asg_termination_lifecycle_hook_name,
      call_describe_hooks, call_put_hook, invoke, bind, emit, on_world, ret, log.
    cbn [world trace yielded fst snd]. rewrite Hhooks.
    cbn [world trace yielded fst snd]. rewrite Hfirst.
    cbn [index0 ret world trace yielded fst snd].
    destruct (put_lifecycle_hook client asg h 3600 w1) as [w2 [[] | []]];
      cbn [is_ClientError world trace yielded fst snd emit];
      set_solver.
  - unfold prepare_for_stop, try_except, get_asg_termination_lifecycle_hook_name,
      get_asg_termination_lifecycle_hook_timeout, try_except,
      call_describe_hooks, call_get_parameter, call_put_hook, invoke,
      bind, emit, on_world, ret, log.
    cbn [world trace yielded fst snd]. rewrite Hhooks.
    cbn [world trace yielded fst snd]. rewrite Hfirst.
    cbn [index0 ret world trace yielded fst snd].
    destruct (get_parameter client _ true w1) as [w2 [v | []]];
      cbn [is_ClientError int raise ret emit world trace yielded fst snd];
      try reflexivity.
    + destruct (int_of_str v) as [z |];
        cbn [is_ClientError int raise ret emit world trace yielded fst snd];
        [| reflexivity].
      destruct (put_lifecycle_hook client asg h z w2) as [w3 [[] | []]];
        cbn [is_ClientError world trace yielded fst snd emit];
        set_solver.
    + destruct (put_lifecycle_hook client asg h 300 w2) as [w3 [[] | []]];
        cbn [is_ClientError world trace yielded fst snd emit];
        set_solver.
Qed.
End Hooks.

Lemma heartbeat_timeout_put_witness :
  describe_lifecycle_hooks (control_plane prompt) "asg-ecs-1" 0
  = (0, Ok ["drain-Termination-hook"])
  /\ Call (PutLifecycleHook "asg-ecs-1" "drain-Termination-hook" 120)
     ∈ trace (prepare_for_stop (control_plane prompt) decimal "asg-ecs-1"
                               (init 0)).1.
Proof.
  assert (H : describe_lifecycle_hooks (control_plane prompt) "asg-ecs-1"
                                       (world (init 0))
              = (0, Ok ["drain-Termination-hook"])) by reflexivity.
  split; [exact H |].
  destruct (heartbeat_timeout_put (control_plane prompt) decimal
              "asg-ecs-1" (init 0) 0 _ "drain-Termination-hook" [] H eq_refl)
    as [_ Hstop].
  exact Hstop.
Defined.

(** ** What is reported and what is scaled *)

Lemma instance_batches_elem {A} (l b : list A) size x :
  b ∈ instance_batches l size -> x ∈ b -> x ∈ l.
Proof.
  intros Hb Hx.
  assert (H : Forall (Forall (fun y => y ∈ l)) (instance_batches l size)).
  { apply instance_batches_Forall. by apply Forall_forall. }
  rewrite Forall_forall in H. specialize (H b Hb).
  rewrite Forall_forall in H. by apply H.
Qed.

Lemma ids_of_batch (l b : list Instance) size n :
  b ∈ instance_batches l size ->
  n ∈ ecs_ids_of b \/ n ∈ plain_ids_of b ->
  n ∈ map id l.
Proof.
  intros Hb Hn. unfold ecs_ids_of, plain_ids_of in Hn.
  rewrite !list_elem_of_In, !in_map_iff in Hn.
  apply list_elem_of_In, in_map_iff.
  destruct Hn as [(i & <- & Hi) | (i & <- & Hi)];
    apply filter_In in Hi as [Hi _]; exists i; (split; [done |]);
    apply list_elem_of_In; eapply instance_batches_elem; eauto;
    by apply list_elem_of_In.
Qed.

Section Reports.
Context {W : Type}.
Variable client : Client W.
Variable int_of_str : string -> option Z.
Variable instance_eq_str : Instance -> string -> bool.

Local Hint Resolve scale_items_within : within.

(** X11. Every pair [stop_instances] yields has the state stopped, and every
    pair [start_instances] yields has the state running. *)
Theorem yielded_states kw (w : W) :
  Forall (fun p => p.2 = STATE_STOPPED)
         (yielded (stop_instances client int_of_str instance_eq_str kw (init w)).1)
  /\ Forall (fun p => p.2 = STATE_RUNNING)
            (yielded (start_instances client kw (init w)).1).
Proof.
  split.
  - assert (H : within (fun _ => True) (fun p => p.2 = STATE_STOPPED)
                       (fun _ => True)
                       (stop_instances client int_of_str instance_eq_str kw)).
    { within_auto ltac:(reflexivity). }
    destruct (H (init w)) as (_ & (ys & -> & Hys) & _). exact Hys.
  - assert (H : within (fun _ => True) (fun p => p.2 = STATE_RUNNING)
                       (fun _ => True) (start_instances client kw)).
    { within_auto ltac:(first [exact I | reflexivity]). }
    destruct (H (init w)) as (_ & (ys & -> & Hys) & _). exact Hys.
Qed.

(** X12. Every scaling call of [stop_instances] is for a group of the input
    and sets desired capacity and minimum size to 0. *)
Theorem stop_instances_scales_input_to_zero kw (w : W) :
  Forall (fun e => match e with
                   | Call (UpdateAutoScalingGroup n desired min) =>
                       n ∈ map id (PARAM_STOPPED_INSTANCES kw)
                       /\ desired = 0%Z /\ min = 0%Z
                   | _ => True
                   end)
         (trace (stop_instances client int_of_str instance_eq_str kw (init w)).1).
Proof.
  match goal with |- Forall ?P _ =>
    assert (H : within P (fun _ => True) (fun _ => True)
                  (stop_instances client int_of_str instance_eq_str kw)) end.
  { within_auto ltac:(first [ exact I
                            | split; [eapply ids_of_batch; eauto | done] ]). }
  destruct (H (init w)) as ((new & -> & Hnew) & _). exact Hnew.
Qed.

Lemma scale_items_configured Y (kw : kwargs) items ids found asg :
  asg ∈ map id (PARAM_STARTED_INSTANCES kw) ->
  Forall (fun kv => PARAM_ASG_CONF kw !! kv.1 = Some kv.2) items ->
  within (fun e => match e with
                   | Call (UpdateAutoScalingGroup n desired min) =>
                       n ∈ map id (PARAM_STARTED_INSTANCES kw)
                       /\ PARAM_ASG_CONF kw !! n
                          = Some {| desired_capacity := desired;
                                    min_size := min |}
                   | _ => True
                   end)
         Y (fun _ => True) (scale_items client items ids found asg).
Proof.
  intros Hasg Hitems. revert found.
  induction Hitems as [| [key [desired min]] items Hkey _ IH]; intros found; simpl.
  - by apply within_ret.
  - destruct (String.eqb_spec key asg) as [-> | Hne]; [| apply IH].
    apply within_bind_any; [within_auto ltac:(first [exact I | done]) |].
    intros [found' | ex]; [apply IH | by apply within_ret].
Qed.

(** X13. Every scaling call of [start_instances] is for a group of the input
    that has an entry in the scaling configuration, and sets the desired
    capacity and the minimum size of that entry. *)
Theorem start_instances_scales_as_configured kw (w : W) :
  Forall (fun e => match e with
                   | Call (UpdateAutoScalingGroup n desired min) =>
                       n ∈ map id (PARAM_STARTED_INSTANCES kw)
                       /\ PARAM_ASG_CONF kw !! n
                          = Some {| desired_capacity := desired;
                                    min_size := min |}
                   | _ => True
                   end)
         (trace (start_instances client kw (init w)).1).
Proof.
  assert (Hconf : Forall (fun kv => PARAM_ASG_CONF kw !! kv.1 = Some kv.2)
                         (map_to_list (PARAM_ASG_CONF kw))).
  { apply Forall_forall. intros [k v] Hin. by apply elem_of_map_to_list. }
  match goal with |- Forall ?P _ =>
    assert (H : within P (fun _ => True) (fun _ => True)
                  (start_instances client kw)) end.
  { within_auto ltac:(first [ exact I
                            | apply scale_items_configured;
                              [eapply ids_of_batch; eauto | exact Hconf] ]). }
  destruct (H (init w)) as ((new & -> & Hnew) & _). exact Hnew.
Qed.
End Reports.

(** ** Tags are written for reported groups only *)

Section TagsReported.
Context {W : Type}.
Variable client : Client W.
Variable int_of_str : string -> option Z.
Variable instance_eq_str : Instance -> string -> bool.
Implicit Types (s : state W) (names : list string).

Local Hint Resolve scale_items_within : within.
Local Hint Extern 1 (no_tag_call _) => reflexivity : within.

Lemma tags_reported_neutral {A} (c : M (W:=W) A) :
  within no_tag_call (fun _ => True) (fun _ => True) c ->
  preserves tags_reported c.
Proof.
  intros Hc s Hs. destruct (Hc s) as ((new & Ht & Hnew) & (ys & Hy & _) & _).
  unfold tags_reported. rewrite Ht, Hy. apply Forall_app. split.
  - eapply Forall_impl; [exact Hs |]. intros e He. cbv beta in *.
    destruct (tagged_group e); [| done].
    rewrite map_app. apply elem_of_app. by left.
  - eapply Forall_impl; [exact Hnew |]. intros e He.
    destruct e as [| | []]; try done.
Qed.

Lemma apply_transition_tags_resources warn_fmt rl al names remove_keys add_tags :
  within (fun e => match tagged_group e with
                   | Some resource => resource ∈ names
                   | None => True
                   end)
         (fun _ => False) (fun _ => True)
         (apply_transition_tags client warn_fmt rl al names remove_keys add_tags).
Proof. within_auto ltac:(first [exact I | done]). Qed.

Lemma tags_reported_tag_and_yield warn_fmt rl al reached names remove_keys add_tags :
  preserves tags_reported
    (tag_and_yield client warn_fmt rl al reached names remove_keys add_tags).
Proof.
  intros s Hs. rewrite tag_and_yield_run. case_bool_decide; [| exact Hs].
  cbv zeta.
  destruct (apply_transition_tags_resources warn_fmt rl al names remove_keys
              add_tags s) as ((new & Ht & Hnew) & (ys & Hy & Hys) & _).
  destruct ys as [| y ys]; [| by inversion Hys]. rewrite app_nil_r in Hy.
  unfold tags_reported. cbn [trace yielded fst]. rewrite Ht, Hy.
  apply Forall_app. split.
  - eapply Forall_impl; [exact Hs |]. intros e He. cbv beta in *.
    destruct (tagged_group e); [| done].
    rewrite map_app. apply elem_of_app. by left.
  - eapply Forall_impl; [exact Hnew |]. intros e He. cbv beta in *.
    destruct (tagged_group e) as [resource |]; [| done].
    rewrite map_app, map_map. cbn [fst]. rewrite map_id.
    apply elem_of_app. by right.
Qed.

Lemma stop_batch_tags_reported keys stop_tags asg_instance :
  preserves tags_reported
    (stop_batch client int_of_str instance_eq_str keys stop_tags asg_instance).
Proof.
  unfold stop_batch. cbv zeta.
  do 4 (apply preserves_bind;
        [apply tags_reported_neutral; within_auto ltac:(reflexivity) | intros ?]).
  apply preserves_bind;
    [apply tags_reported_neutral; within_auto ltac:(reflexivity) | intros v1].
  destruct v1 as [[found_ecs count] |]; [| apply preserves_ret].
  apply preserves_bind;
    [apply tags_reported_neutral; within_auto ltac:(reflexivity) | intros v2].
  destruct v2 as [[found_plain count'] |]; [| apply preserves_ret].
  repeat (apply preserves_bind; [apply tags_reported_tag_and_yield | intros _]).
  apply preserves_ret.
Qed.

Lemma start_batch_tags_reported asg_conf keys start_tags asg_instance :
  preserves tags_reported
    (start_batch client asg_conf keys start_tags asg_instance).
Proof.
  unfold start_batch. cbv zeta.
  do 2 (apply preserves_bind;
        [apply tags_reported_neutral; within_auto ltac:(reflexivity) | intros ?]).
  apply preserves_bind;
    [apply tags_reported_neutral; within_auto ltac:(reflexivity) | intros v1].
  destruct v1 as [count |]; [| apply preserves_ret].
  apply preserves_bind;
    [apply tags_reported_neutral; within_auto ltac:(reflexivity) | intros v2].
  destruct v2 as [count' |]; [| apply preserves_ret].
  repeat (apply preserves_bind; [apply tags_reported_tag_and_yield | intros _]).
  apply preserves_ret.
Qed.

(** X14. Whenever [stop_instances] or [start_instances] ends, normally or
    with an exception, every tag it has deleted, created or updated is a
    tag of a group it has yielded. *)
Theorem tags_only_for_reported_groups kw (w : W) :
  tags_reported (stop_instances client int_of_str instance_eq_str kw (init w)).1
  /\ tags_reported (start_instances client kw (init w)).1.
Proof.
  assert (Hinit : tags_reported (init w)) by constructor.
  split.
  - revert Hinit. generalize (init w).
    change (preserves tags_reported
              (stop_instances client int_of_str instance_eq_str kw)).
    unfold stop_instances. cbv zeta.
    apply preserves_bind;
      [apply tags_reported_neutral; within_auto ltac:(reflexivity) | intros keys].
    apply preserves_for_break. intros b. apply stop_batch_tags_reported.
  - revert Hinit. generalize (init w).
    change (preserves tags_reported (start_instances client kw)).
    unfold start_instances. cbv zeta.
    apply preserves_bind;
      [apply tags_reported_neutral; within_auto ltac:(reflexivity) | intros keys].
    apply preserves_for_break. intros b. apply start_batch_tags_reported.
Qed.
End TagsReported.

(** ** How long a call waits *)

Section Waits.
Context {W : Type}.
Variable client : Client W.
Variable int_of_str : string -> option Z.
Variable instance_eq_str : Instance -> string -> bool.
Implicit Types (s : state W) (f : event -> bool).
Local Abbreviation M := (M (W:=W)).

Local Hint Resolve scale_items_within : within.

Lemma count_events_app f (tr1 tr2 : list event) :
  count_events f (tr1 ++ tr2) = count_events f tr1 + count_events f tr2.
Proof. unfold count_events. by rewrite List.filter_app, length_app. Qed.

Lemma count_events_none f (tr : list event) :
  Forall (fun e => f e = false) tr -> count_events f tr = 0.
Proof.
  unfold count_events. induction 1 as [| e tr He _ IH]; simpl; [done |].
  by rewrite He.
Qed.

Lemma adds_of_within {A} f Y (Q : A -> Prop) (c : M A) :
  within (fun e => f e = false) Y Q c -> adds f 0 c.
Proof.
  intros Hc s. destruct (Hc s) as ((new & -> & Hnew) & _).
  rewrite count_events_app, (count_events_none f new) by done. lia.
Qed.

Lemma adds_weaken {A} f n m (c : M A) : adds f n c -> n <= m -> adds f m c.
Proof. intros Hc Hnm s. specialize (Hc s). lia. Qed.

Lemma adds_ret {A} f (a : A) : adds (W:=W) f 0 (ret a).
Proof. intros s. simpl. lia. Qed.

Lemma adds_bind {A B} f n m (c : M A) (k : A -> M B) :
  adds f n c -> (forall a, adds f m (k a)) -> adds f (n + m) (bind c k).
Proof.
  intros Hc Hk s. unfold bind. specialize (Hc s).
  destruct (c s) as [s1 [a | e]]; simpl in *; [| lia].
  specialize (Hk a s1). lia.
Qed.

Lemma adds_for_break {A} f n (l : list A) (body : A -> M (ctl unit)) :
  (forall x, adds f n (body x)) -> adds f (length l * n) (for_break l body).
Proof.
  intros Hbody. induction l as [| x l IH]; simpl; [apply adds_ret |].
  apply adds_bind; [apply Hbody |].
  intros [[] |]; [exact IH |].
  eapply adds_weaken; [apply adds_ret | lia].
Qed.

Lemma sleep_adds secs : adds is_sleep 1 (sleep client secs).
Proof.
  intros s. unfold sleep, bind, emit, on_world. simpl.
  rewrite count_events_app. unfold count_events at 2. simpl. lia.
Qed.

Lemma verify_stopped_adds asg_instance ids found count :
  adds is_sleep 1 (verify_stopped client instance_eq_str asg_instance
                                  ids found count).
Proof.
  unfold verify_stopped. case_bool_decide.
  - apply (adds_bind _ 1 0); [apply sleep_adds | intros _].
    eapply adds_of_within with (Y := fun _ => True) (Q := fun _ => True).
    within_auto ltac:(reflexivity).
  - eapply adds_weaken; [apply adds_ret | lia].
Qed.

Lemma verify_started_adds ids found count :
  adds is_sleep 1 (verify_started client ids found count).
Proof.
  unfold verify_started. case_bool_decide.
  - apply (adds_bind _ 1 0); [apply sleep_adds | intros _].
    eapply adds_of_within with (Y := fun _ => True) (Q := fun _ => True).
    within_auto ltac:(reflexivity).
  - eapply adds_weaken; [apply adds_ret | lia].
Qed.

Lemma stop_batch_adds keys stop_tags asg_instance :
  adds is_sleep 2 (stop_batch client int_of_str instance_eq_str keys stop_tags
                              asg_instance).
Proof.
  unfold stop_batch. cbv zeta.
  do 4 (apply (adds_bind _ 0 2);
        [eapply adds_of_within with (Y := fun _ => True) (Q := fun _ => True);
         within_auto ltac:(reflexivity) | intros ?]).
  apply (adds_bind _ 1 1); [apply verify_stopped_adds | intros v1].
  destruct v1 as [[found_ecs count] |];
    [| eapply adds_weaken; [apply adds_ret | lia]].
  apply (adds_bind _ 1 0); [apply verify_stopped_adds | intros v2].
  eapply adds_of_within with (Y := fun _ => True) (Q := fun _ => True).
  within_auto ltac:(reflexivity).
Qed.

Lemma start_batch_adds asg_conf keys start_tags asg_instance :
  adds is_sleep 2 (start_batch client asg_conf keys start_tags asg_instance).
Proof.
  unfold start_batch. cbv zeta.
  do 2 (apply (adds_bind _ 0 2);
        [eapply adds_of_within with (Y := fun _ => True) (Q := fun _ => True);
         within_auto ltac:(first [exact I | reflexivity]) | intros ?]).
  apply (adds_bind _ 1 1); [apply verify_started_adds | intros v1].
  destruct v1 as [count |]; [| eapply adds_weaken; [apply adds_ret | lia]].
  apply (adds_bind _ 1 0); [apply verify_started_adds | intros v2].
  eapply adds_of_within with (Y := fun _ => True) (Q := fun _ => True).
  within_auto ltac:(reflexivity).
Qed.

(** X15. A call of [stop_instances] or of [start_instances] sleeps at most
    twice for each batch of its input, five seconds each time. *)
Theorem waits_are_bounded kw (w : W) :
  let stopped := stop_instances client int_of_str instance_eq_str kw (init w) in
  let started := start_instances client kw (init w) in
  count_events is_sleep (trace stopped.1)
  <= 2 * length (instance_batches (PARAM_STOPPED_INSTANCES kw) STOP_BATCH_SIZE)
  /\ Forall sleeps_five (trace stopped.1)
  /\ count_events is_sleep (trace started.1)
     <= 2 * length (instance_batches (PARAM_STARTED_INSTANCES kw) START_BATCH_SIZE)
  /\ Forall sleeps_five (trace started.1).
Proof.
  cbv zeta. repeat split.
  - assert (H : adds is_sleep
                  (0 + length (instance_batches (PARAM_STOPPED_INSTANCES kw)
                                                STOP_BATCH_SIZE) * 2)
                  (stop_instances client int_of_str instance_eq_str kw)).
    { unfold stop_instances. cbv zeta. apply adds_bind.
      - eapply adds_of_within with (Y := fun _ => True) (Q := fun _ => True).
        within_auto ltac:(reflexivity).
      - intros keys. apply adds_for_break. intros b. apply stop_batch_adds. }
    specialize (H (init w)). simpl in H. lia.
  - assert (H : within sleeps_five (fun _ => True) (fun _ => True)
                  (stop_instances client int_of_str instance_eq_str kw)).
    { within_auto ltac:(first [exact I | reflexivity]). }
    destruct (H (init w)) as ((new & -> & Hnew) & _). exact Hnew.
  - assert (H : adds is_sleep
                  (0 + length (instance_batches (PARAM_STARTED_INSTANCES kw)
                                                START_BATCH_SIZE) * 2)
                  (start_instances client kw)).
    { unfold start_instances. cbv zeta. apply adds_bind.
      - eapply adds_of_within with (Y := fun _ => True) (Q := fun _ => True).
        within_auto ltac:(reflexivity).
      - intros keys. apply adds_for_break. intros b. apply start_batch_adds. }
    specialize (H (init w)). simpl in H. lia.
  - assert (H : within sleeps_five (fun _ => True) (fun _ => True)
                  (start_instances client kw)).
    { within_auto ltac:(first [exact I | reflexivity]). }
    destruct (H (init w)) as ((new & -> & Hnew) & _). exact Hnew.
Qed.
End Waits.

(** ** The tags after [start_instances] *)

Section StartTags.
Context {W : Type}.
Variable client : Client W.

Local Hint Resolve scale_items_within : within.
Local Hint Extern 1 (no_tag_call _) => reflexivity : within.

Lemma start_batch_settled asg_conf remove_tags add_tags asg_instance :
  preserves (settled WARN_STARTED_ASG_INSTANCES_TAGGING remove_tags add_tags)
    (start_batch client asg_conf
       (map Key (List.filter (fun t => negb (mem (Key t) (map Key add_tags)))
                             remove_tags))
       add_tags asg_instance).
Proof.
  unfold start_batch. cbv zeta.
  do 2 (apply preserves_bind;
        [apply settled_neutral; within_auto ltac:(reflexivity) | intros ?]).
  apply preserves_bind;
    [apply settled_neutral; within_auto ltac:(reflexivity) | intros v1].
  destruct v1 as [count |]; [| apply preserves_ret].
  apply preserves_bind;
    [apply settled_neutral; within_auto ltac:(reflexivity) | intros v2].
  destruct v2 as [count' |]; [| apply preserves_ret].
  repeat (apply preserves_bind; [apply settled_tag_and_yield | intros _]).
  apply preserves_ret.
Qed.

Lemma start_instances_settled kw stop_tags :
  stopped_tags (PARAM_CONFIG kw) = Some stop_tags ->
  preserves (settled WARN_STARTED_ASG_INSTANCES_TAGGING stop_tags
                     (default [] (started_tags (PARAM_CONFIG kw))))
            (start_instances client kw).
Proof.
  intros Hstop s Hs. unfold start_instances. cbv zeta. rewrite Hstop.
  unfold keys_not_in, bind at 1, ret at 1.
  apply preserves_for_break; [| exact Hs].
  intros asg_instance.
  change (match started_tags (PARAM_CONFIG kw) with
          | Some l => l
          | None => []
          end) with (default [] (started_tags (PARAM_CONFIG kw))).
  apply start_batch_settled.
Qed.

(** X16. After a call of [start_instances] during which no tagging warning
    was logged, take a group the call reported running and replay the
    tagging calls of the trace on any tags: a key of both the stop tags
    and the start tags has the value the start tags give it, with
    propagate-at-launch off, and a key of the stop tags that is not a key
    of the start tags is absent. *)
Theorem start_instances_tag_transition kw (w : W) stop_tags g :
  let out := start_instances client kw (init w) in
  let start_tags := default [] (started_tags (PARAM_CONFIG kw)) in
  stopped_tags (PARAM_CONFIG kw) = Some stop_tags ->
  Forall (not_warning WARN_STARTED_ASG_INSTANCES_TAGGING) (trace out.1) ->
  (g, STATE_RUNNING) ∈ yielded out.1 ->
  forall T0,
    (forall k v, k ∈ map Key stop_tags -> k ∈ map Key start_tags ->
                 tag_value start_tags k = Some v ->
                 replay (trace out.1) T0 !! (g, k) = Some (v, false))
    /\ (forall k, k ∈ map Key stop_tags -> k ∉ map Key start_tags ->
                  replay (trace out.1) T0 !! (g, k) = None).
Proof.
  cbv zeta. intros Hstop Hquiet Hg T0.
  assert (Hinit : settled WARN_STARTED_ASG_INSTANCES_TAGGING stop_tags
                          (default [] (started_tags (PARAM_CONFIG kw)))
                          (init w)).
  { intros _ g' Hg'. by inversion Hg'. }
  pose proof (start_instances_settled kw stop_tags Hstop _ Hinit) as Hend.
  assert (Hin : g ∈ map fst (yielded (start_instances client kw (init w)).1)).
  { apply list_elem_of_In, in_map_iff. exists (g, STATE_RUNNING).
    split; [done | by apply list_elem_of_In]. }
  exact (Hend Hquiet g Hin T0).
Qed.
End StartTags.

Lemma start_instances_tag_transition_witness :
  let out := run_start prompt [plain "A"] (conf_for 1) in
  stopped_tags the_config = Some [Tag "state" "stopped"]
  /\ Forall (not_warning WARN_STARTED_ASG_INSTANCES_TAGGING) (trace out.1)
  /\ ("A", STATE_RUNNING) ∈ yielded out.1
  /\ replay (trace out.1) {[ ("A", "state") := ("stopped", true) ]}
     !! ("A", "state") = Some ("started", false).
Proof.
  cbv zeta.
  assert (H1 : stopped_tags (PARAM_CONFIG (kw_start [plain "A"] (conf_for 1)))
               = Some [Tag "state" "stopped"]) by reflexivity.
  assert (H2 : Forall (not_warning WARN_STARTED_ASG_INSTANCES_TAGGING)
                      (trace (run_start prompt [plain "A"] (conf_for 1)).1)).
  { vm_compute. repeat constructor. }
  assert (H3 : ("A", STATE_RUNNING)
               ∈ yielded (run_start prompt [plain "A"] (conf_for 1)).1).
  { vm_compute. left. }
  destruct (start_instances_tag_transition
              (control_plane prompt) (kw_start [plain "A"] (conf_for 1)) 0 _ "A"
              H1 H2 H3 {[ ("A", "state") := ("stopped", true) ]})
    as (Hboth & _).
  split; [exact H1 | split; [exact H2 | split; [exact H3 |]]].
  apply Hboth; [vm_compute; left | vm_compute; left | vm_compute; reflexivity].
Defined.

(** ** Groups that are scaled *)

Section Reaches.
Context {W : Type}.
Implicit Types (s : state W) (e : event).
Local Abbreviation M := (M (W:=W)).

Lemma grows_trace {A} (c : M A) s e : grows c -> e ∈ trace s -> e ∈ trace (c s).1.
Proof.
  intros Hc He. destruct (Hc s) as ((new & -> & _) & _).
  apply elem_of_app. by left.
Qed.

Lemma reaches_bind_l {A B} e (c : M A) (k : A -> M B) :
  reaches e c -> (forall a, grows (k a)) -> reaches e (bind c k).
Proof.
  intros Hc Hk s. unfold bind. specialize (Hc s).
  destruct (c s) as [s1 [a | ex]]; [| exact Hc].
  by apply grows_trace.
Qed.

Lemma reaches_bind_r {A B} e (Q : A -> Prop) (c : M A) (k : A -> M B) :
  raises_only (fun _ => False) c ->
  within (fun _ => True) (fun _ => True) Q c ->
  (forall a, Q a -> reaches e (k a)) ->
  reaches e (bind c k).
Proof.
  intros Hsafe Hc Hk s. unfold bind.
  specialize (Hsafe s). destruct (Hc s) as (_ & _ & HQ).
  destruct (c s) as [s1 [a | ex]]; simpl in *.
  - apply Hk. by apply HQ.
  - destruct (Hsafe ex eq_refl).
Qed.

Lemma reaches_try_except {A} e (c : M A) catches h :
  reaches e c -> (forall ex, grows (h ex)) -> reaches e (try_except c catches h).
Proof.
  intros Hc Hh s. unfold try_except. specialize (Hc s).
  destruct (c s) as [s1 [a | ex]]; [exact Hc |].
  destruct (catches ex); [by apply grows_trace | exact Hc].
Qed.

Lemma reaches_for_acc {A B} e (l : list A) (body : B -> A -> M B) x :
  x ∈ l ->
  (forall acc y, raises_only (fun _ => False) (body acc y)) ->
  (forall acc y, grows (body acc y)) ->
  (forall acc, reaches e (body acc x)) ->
  forall acc, reaches e (for_acc l acc body).
Proof.
  intros Hx Hsafe Hgrow Hbody.
  induction l as [| y l IH]; intros acc; [by inversion Hx |]. simpl.
  assert (Hrest : forall acc', grows (for_acc l acc' body)).
  { intros acc'. apply within_for_acc; [done | intros; apply Hgrow]. }
  apply elem_of_cons in Hx as [<- | Hx].
  - apply reaches_bind_l; [apply Hbody | exact Hrest].
  - eapply reaches_bind_r; [apply Hsafe | apply Hgrow |].
    intros acc' _. by apply IH.
Qed.

Lemma reaches_for_break {A} e (l : list A) (body : A -> M (ctl unit)) x :
  x ∈ l ->
  (forall y, y ∈ l -> raises_only (fun _ => False) (body y)) ->
  (forall y, y ∈ l ->
             within (fun _ => True) (fun _ => True) (fun c => c = Next tt)
                    (body y)) ->
  (forall y, y ∈ l -> grows (body y)) ->
  reaches e (body x) ->
  reaches e (for_break l body).
Proof.
  intros Hx Hsafe Hnext Hgrow Hbody.
  induction l as [| y l IH]; [by inversion Hx |]. simpl.
  assert (Hrest : grows (for_break l body)).
  { apply within_for_break. intros z Hz. apply Hgrow. by right. }
  apply elem_of_cons in Hx as [<- | Hx].
  - apply reaches_bind_l; [exact Hbody |].
    intros [[] |]; [exact Hrest | by apply within_ret].
  - eapply reaches_bind_r; [apply Hsafe; by left | apply Hnext; by left |].
    intros c ->. apply IH; [done | | |].
    + intros z Hz. apply Hsafe. by right.
    + intros z Hz. apply Hnext. by right.
    + intros z Hz. apply Hgrow. by right.
Qed.

Lemma reaches_invoke {A} (c : call) (op : W -> W * result A) :
  reaches (Call c) (invoke c op).
Proof.
  intros s. unfold invoke, bind, emit, on_world. simpl.
  destruct (op (world s)) as [w r]. simpl. apply elem_of_app. right. by left.
Qed.
End Reaches.

Section Scaled.
Context {W : Type}.
Variable client : Client W.
Variable int_of_str : string -> option Z.
Variable instance_eq_str : Instance -> string -> bool.
Implicit Types (s : state W) (ids found : list string).

Local Hint Resolve scale_items_within : within.
Local Hint Resolve sleep_never_raises tag_and_yield_never_raises
      scale_down_never_raises scale_items_never_raises
      verify_started_never_raises : raises.

Lemma plain_ids_of_elem (b : list Instance) i :
  i ∈ b -> is_ecs i = false -> id i ∈ plain_ids_of b.
Proof.
  intros Hi Hplain. unfold plain_ids_of.
  apply list_elem_of_In, in_map. apply filter_In.
  split; [by apply list_elem_of_In | by rewrite Hplain].
Qed.

Lemma scale_down_reaches ids found asg :
  reaches (Call (UpdateAutoScalingGroup asg 0 0))
          (scale_down client ids found asg).
Proof.
  unfold scale_down. apply reaches_try_except.
  - apply reaches_bind_l; [apply reaches_invoke |].
    intros _. unfold grows. within_auto ltac:(exact I).
  - intros ex. unfold grows. within_auto ltac:(exact I).
Qed.

Lemma stop_plain_reaches ids asg :
  asg ∈ ids ->
  reaches (Call (UpdateAutoScalingGroup asg 0 0)) (stop_plain client ids).
Proof.
  intros Hasg. unfold stop_plain.
  destruct ids as [| n ids]; [by inversion Hasg |].
  rewrite bool_decide_eq_true_2 by done.
  apply reaches_for_acc with (x := asg); [done | | |].
  - intros acc y. apply scale_down_never_raises.
  - intros acc y. unfold grows. within_auto ltac:(exact I).
  - intros acc. apply scale_down_reaches.
Qed.

Lemma stop_batch_reaches keys stop_tags (b : list Instance) i :
  all_plain b -> i ∈ b ->
  reaches (Call (UpdateAutoScalingGroup (id i) 0 0))
          (stop_batch client int_of_str instance_eq_str keys stop_tags b).
Proof.
  intros Hplain Hi. unfold stop_batch. cbv zeta.
  rewrite (ecs_ids_of_plain _ Hplain).
  do 3 (eapply reaches_bind_r with (Q := fun _ => True);
        [raises_auto ltac:(by match goal with H : _ ∈ [] |- _ => inversion H end)
        | within_auto ltac:(exact I) | intros ? _]).
  apply reaches_bind_l.
  - apply stop_plain_reaches, plain_ids_of_elem; [done |].
    unfold all_plain in Hplain. rewrite Forall_forall in Hplain. by apply Hplain.
  - intros found. unfold grows. within_auto ltac:(exact I).
Qed.

(** X17. When the groups of the first batch are not flagged ECS and the start
    tags are given, [stop_instances] issues the call that scales to zero
    for every group of that batch, whatever state the group is in and
    whatever the control plane answers. *)
Theorem stop_instances_scales_first_batch kw (w : W) i :
  all_plain (take STOP_BATCH_SIZE (PARAM_STOPPED_INSTANCES kw)) ->
  is_Some (started_tags (PARAM_CONFIG kw)) ->
  i ∈ take STOP_BATCH_SIZE (PARAM_STOPPED_INSTANCES kw) ->
  Call (UpdateAutoScalingGroup (id i) 0 0)
  ∈ trace (stop_instances client int_of_str instance_eq_str kw (init w)).1.
Proof.
  intros Hplain [start_tags Hstart] Hi.
  unfold stop_instances. cbv zeta. rewrite Hstart.
  unfold keys_not_in, bind at 1, ret at 1.
  rewrite instance_batches_unfold by (unfold STOP_BATCH_SIZE; lia).
  destruct (PARAM_STOPPED_INSTANCES kw) as [| i0 l] eqn:Hl.
  { rewrite take_nil in Hi. by inversion Hi. }
  cbn [for_break].
  apply reaches_bind_l.
  - by apply stop_batch_reaches.
  - intros [[] |]; unfold grows; within_auto ltac:(exact I).
Qed.
End Scaled.

Lemma stop_instances_scales_first_batch_witness :
  all_plain (take STOP_BATCH_SIZE
                  (PARAM_STOPPED_INSTANCES (kw_stop (plain_groups 2))))
  /\ Call (UpdateAutoScalingGroup "B" 0 0)
     ∈ trace (run_stop busy (plain_groups 2)).1.
Proof.
  assert (H : all_plain (take STOP_BATCH_SIZE
                           (PARAM_STOPPED_INSTANCES (kw_stop (plain_groups 2)))))
    by (repeat constructor).
  split; [exact H |].
  apply (stop_instances_scales_first_batch
           (control_plane busy) decimal never_equal
           (kw_stop (plain_groups 2)) 0 (plain "B") H).
  - simpl. eauto.
  - right. left.
Defined.

Section Started.
Context {W : Type}.
Variable client : Client W.
Implicit Types (s : state W) (ids found : list string).

Local Hint Resolve scale_items_within : within.
Local Hint Resolve sleep_never_raises tag_and_yield_never_raises
      scale_items_never_raises verify_started_never_raises : raises.

Lemma verify_started_next ids found count :
  count <= 2 ->
  within (fun _ => True) (fun _ => True)
         (fun r => exists count', r = Next count' /\ count' <= count + 1)
         (verify_started client ids found count).
Proof.
  intros Hcount. unfold verify_started.
  case_bool_decide as Hshort; [| apply within_ret; exists count; split; [done | lia]].
  apply within_bind_any; [within_auto ltac:(exact I) | intros _].
  rewrite bool_decide_eq_false_2 by lia.
  rewrite bool_decide_eq_false_2 by lia.
  apply within_ret. eexists. split; [done | lia].
Qed.

Lemma start_batch_next asg_conf keys start_tags asg_instance :
  within (fun _ => True) (fun _ => True) (fun c => c = Next tt)
         (start_batch client asg_conf keys start_tags asg_instance).
Proof.
  unfold start_batch. cbv zeta.
  do 2 (apply within_bind_any; [within_auto ltac:(exact I) | intros ?]).
  eapply within_bind; [apply (verify_started_next _ _ 0); lia |].
  intros v1 (count & -> & Hcount).
  eapply within_bind; [apply (verify_started_next _ _ count); lia |].
  intros v2 (count' & -> & _).
  do 2 (apply within_bind_any; [within_auto ltac:(exact I) | intros _]).
  by apply within_ret.
Qed.

Lemma scale_items_reaches items ids found asg value :
  NoDup (map fst items) -> (asg, value) ∈ items ->
  reaches (Call (UpdateAutoScalingGroup asg (desired_capacity value)
                                        (min_size value)))
          (scale_items client items ids found asg).
Proof.
  intros Hnd Hin. revert found.
  induction items as [| [key v] items IH]; intros found; [by inversion Hin |].
  cbn [map fst] in Hnd. apply NoDup_cons in Hnd as [Hfresh Hnd]. simpl.
  apply elem_of_cons in Hin as [[= <- <-] | Hin].
  - rewrite String.eqb_refl. apply reaches_bind_l.
    + intros s. unfold attempt.
      pose proof (reaches_bind_l
                    (Call (UpdateAutoScalingGroup asg (desired_capacity value)
                                                  (min_size value)))
                    (call_update client asg (desired_capacity value)
                                 (min_size value))
                    (fun _ => status_names client ids)) as H.
      specialize (H (reaches_invoke _ _)).
      specialize (H (fun _ => ltac:(unfold grows; within_auto ltac:(exact I))) s).
      by destruct (bind _ _ s).
    + intros [found' | ex]; unfold grows; within_auto ltac:(exact I).
  - destruct (String.eqb_spec key asg) as [-> | Hne].
    + exfalso. apply Hfresh. apply list_elem_of_In, in_map_iff.
      exists (asg, value). split; [done | by apply list_elem_of_In].
    + by apply IH.
Qed.

Lemma scale_up_reaches (asg_conf : gmap string scaling) ids found asg value :
  asg_conf !! asg = Some value ->
  reaches (Call (UpdateAutoScalingGroup asg (desired_capacity value)
                                        (min_size value)))
          (scale_up client asg_conf ids found asg).
Proof.
  intros Hconf. unfold scale_up. apply reaches_bind_l.
  - apply scale_items_reaches; [apply NoDup_fst_map_to_list |].
    by apply elem_of_map_to_list.
  - intros [found' [ex |]]; unfold grows; within_auto ltac:(exact I).
Qed.

Lemma start_plain_reaches (asg_conf : gmap string scaling) ids asg value :
  asg ∈ ids -> asg_conf !! asg = Some value ->
  reaches (Call (UpdateAutoScalingGroup asg (desired_capacity value)
                                        (min_size value)))
          (start_plain client asg_conf ids).
Proof.
  intros Hasg Hconf. unfold start_plain.
  destruct ids as [| n ids]; [by inversion Hasg |].
  rewrite bool_decide_eq_true_2 by done.
  apply reaches_for_acc with (x := asg); [done | | |].
  - intros acc y. raises_auto idtac.
  - intros acc y. unfold grows. within_auto ltac:(exact I).
  - intros acc. by apply scale_up_reaches.
Qed.

Lemma start_batch_reaches asg_conf keys start_tags (b : list Instance) i value :
  all_plain b -> i ∈ b -> asg_conf !! id i = Some value ->
  reaches (Call (UpdateAutoScalingGroup (id i) (desired_capacity value)
                                        (min_size value)))
          (start_batch client asg_conf keys start_tags b).
Proof.
  intros Hplain Hi Hconf. unfold start_batch. cbv zeta.
  rewrite (ecs_ids_of_plain _ Hplain).
  eapply reaches_bind_r with (Q := fun _ => True);
    [raises_auto ltac:(by match goal with H : _ ∈ [] |- _ => inversion H end)
    | within_auto ltac:(exact I) | intros ? _].
  apply reaches_bind_l.
  - apply start_plain_reaches; [| done]. apply plain_ids_of_elem; [done |].
    unfold all_plain in Hplain. rewrite Forall_forall in Hplain. by apply Hplain.
  - intros found. unfold grows. within_auto ltac:(exact I).
Qed.

(** X18. When no group of the input is flagged ECS and the stop tags are
    given, [start_instances] issues, for every group of the input that
    has an entry in the scaling configuration, the scaling call with the
    desired capacity and the minimum size of the entry, whatever the
    control plane answers. *)
Theorem start_instances_scales_configured_groups kw (w : W) i value :
  all_plain (PARAM_STARTED_INSTANCES kw) ->
  is_Some (stopped_tags (PARAM_CONFIG kw)) ->
  i ∈ PARAM_STARTED_INSTANCES kw ->
  PARAM_ASG_CONF kw !! id i = Some value ->
  Call (UpdateAutoScalingGroup (id i) (desired_capacity value) (min_size value))
  ∈ trace (start_instances client kw (init w)).1.
Proof.
  intros Hplain [stop_tags Hstop] Hi Hconf.
  unfold start_instances. cbv zeta. rewrite Hstop.
  unfold keys_not_in, bind at 1, ret at 1.
  pose proof (instance_batches_all_plain _ START_BATCH_SIZE Hplain) as Hall.
  rewrite Forall_forall in Hall.
  assert (Hb : exists b, b ∈ instance_batches (PARAM_STARTED_INSTANCES kw)
                                             START_BATCH_SIZE /\ i ∈ b).
  { destruct (batches_from_spec START_BATCH_SIZE (PARAM_STARTED_INSTANCES kw))
      with (buffer := @nil Instance) as (Hc & _);
      [unfold START_BATCH_SIZE; lia | simpl; unfold START_BATCH_SIZE; lia |].
    simpl in Hc. fold (instance_batches (PARAM_STARTED_INSTANCES kw)
                                        START_BATCH_SIZE) in Hc.
    rewrite <- Hc in Hi. apply list_elem_of_In, in_concat in Hi.
    destruct Hi as (b & Hb & Hi). exists b.
    split; by apply list_elem_of_In. }
  destruct Hb as (b & Hb & Hib).
  apply reaches_for_break with (x := b); [done | | | |].
  - intros y Hy. apply start_batch_plain_raises. by apply Hall.
  - intros y Hy. apply start_batch_next.
  - intros y Hy. unfold grows. within_auto ltac:(exact I).
  - apply start_batch_reaches; [by apply Hall | done | done].
Qed.
End Started.

Lemma start_instances_scales_configured_groups_witness :
  all_plain (PARAM_STARTED_INSTANCES (kw_start (plain_groups 7) (conf_for 7)))
  /\ Call (UpdateAutoScalingGroup "G" 2 1)
     ∈ trace (run_start (stuck 0 []) (plain_groups 7) (conf_for 7)).1.
Proof.
  assert (H : all_plain (PARAM_STARTED_INSTANCES
                           (kw_start (plain_groups 7) (conf_for 7))))
    by (repeat constructor).
  split; [exact H |].
  apply (start_instances_scales_configured_groups
           (control_plane (stuck 0 [])) (kw_start (plain_groups 7) (conf_for 7))
           0 (plain "G") {| desired_capacity := 2; min_size := 1 |} H).
  - simpl. eauto.
  - vm_compute. do 6 right. left.
  - vm_compute. reflexivity.
Defined.

(** ** Inputs with nothing to scale, and missing tag lists *)

Section NothingToScale.
Context {W : Type}.
Variable client : Client W.
Variable int_of_str : string -> option Z.
Variable instance_eq_str : Instance -> string -> bool.
Implicit Types (s : state W) (ids found : list string).

Lemma scale_up_unconfigured P Y (asg_conf : gmap string scaling) ids asg :
  asg_conf !! asg = None ->
  within P Y (fun found => found = [])
         (scale_up client asg_conf ids [] asg).
Proof.
  intros Hnone s. unfold scale_up, bind.
  rewrite scale_items_skip by by apply unconfigured_items.
  by apply extends_refl; intros a [= <-].
Qed.

Lemma start_batch_unconfigured asg_conf keys start_tags (b : list Instance) :
  (forall n, n ∈ ecs_ids_of b \/ n ∈ plain_ids_of b -> asg_conf !! n = None) ->
  within (fun e => is_scaling_or_status e = false) (fun _ => False)
         (fun _ => True)
         (start_batch client asg_conf keys start_tags b).
Proof.
  intros Hnone. unfold start_batch. cbv zeta.
  eapply within_bind with (Q := fun found => found = []).
  { unfold start_ecs. case_bool_decide; [| within_auto ltac:(reflexivity)].
    apply within_for_acc; [done |]. intros acc asg -> Hasg.
    apply within_bind_any; [within_auto ltac:(reflexivity) | intros _].
    apply scale_up_unconfigured. apply Hnone. by left. }
  intros ? ->.
  eapply within_bind with (Q := fun found => found = []).
  { unfold start_plain. case_bool_decide; [| within_auto ltac:(reflexivity)].
    apply within_for_acc; [done |]. intros acc asg -> Hasg.
    apply scale_up_unconfigured. apply Hnone. by right. }
  intros ? ->.
  do 2 (apply within_bind_any; [within_auto ltac:(reflexivity) | intros []];
        [| by apply within_ret]).
  unfold tag_and_yield. rewrite bool_decide_eq_false_2 by (simpl; lia).
  within_auto ltac:(reflexivity).
Qed.

(** X19. When no group of the input has an entry in the scaling
    configuration, [start_instances] yields nothing, scales nothing and
    reads no status. *)
Theorem start_instances_nothing_configured kw (w : W) :
  (forall i, i ∈ PARAM_STARTED_INSTANCES kw -> PARAM_ASG_CONF kw !! id i = None) ->
  yielded (start_instances client kw (init w)).1 = []
  /\ Forall (fun e => is_scaling_or_status e = false)
            (trace (start_instances client kw (init w)).1).
Proof.
  intros Hnone.
  assert (H : within (fun e => is_scaling_or_status e = false)
                     (fun _ => False) (fun _ => True)
                     (start_instances client kw)).
  { unfold start_instances. cbv zeta.
    apply within_bind_any; [within_auto ltac:(reflexivity) | intros keys].
    apply within_for_break. intros b Hb.
    apply start_batch_unconfigured. intros n Hn.
    pose proof (ids_of_batch _ _ _ _ Hb Hn) as Hin.
    apply list_elem_of_In, in_map_iff in Hin as (i & <- & Hi).
    apply Hnone. by apply list_elem_of_In. }
  destruct (H (init w)) as ((new & -> & Hnew) & (ys & -> & Hys) & _).
  split; [| exact Hnew].
  destruct ys as [| y ys]; [done | by inversion Hys].
Qed.

(** X20. [stop_instances] takes a missing list of stop tags for an empty
    list, but ends with [TypeError], before any call or log record, when
    the list of start tags is missing; [start_instances] does so when
    the list of stop tags is missing. *)
Theorem missing_tag_lists kw s :
  stop_instances client int_of_str instance_eq_str (without_started_tags kw) s
  = (s, Raise TypeError)
  /\ start_instances client (without_stopped_tags kw) s = (s, Raise TypeError)
  /\ (stopped_tags (PARAM_CONFIG kw) = Some [] ->
      stop_instances client int_of_str instance_eq_str (without_stopped_tags kw) s
      = stop_instances client int_of_str instance_eq_str kw s)
  /\ (started_tags (PARAM_CONFIG kw) = Some [] ->
      start_instances client (without_started_tags kw) s
      = start_instances client kw s).
Proof.
  repeat split.
  - intros Hempty. unfold stop_instances. simpl. by rewrite Hempty.
  - intros Hempty. unfold start_instances. simpl. by rewrite Hempty.
Qed.
End NothingToScale.

Lemma start_instances_nothing_configured_witness :
  (forall i, i ∈ PARAM_STARTED_INSTANCES (kw_start (plain_groups 2) ∅) ->
             PARAM_ASG_CONF (kw_start (plain_groups 2) ∅) !! id i = None)
  /\ yielded (run_start prompt (plain_groups 2) ∅).1 = [].
Proof.
  assert (H : forall i, i ∈ PARAM_STARTED_INSTANCES (kw_start (plain_groups 2) ∅) ->
                        PARAM_ASG_CONF (kw_start (plain_groups 2) ∅) !! id i = None)
    by (intros i _; apply lookup_empty).
  split; [exact H |].
  apply (start_instances_nothing_configured
           (control_plane prompt) (kw_start (plain_groups 2) ∅) 0 H).
Defined.

Lemma missing_tag_lists_witness :
  stop_instances (control_plane prompt) decimal never_equal
                 (without_started_tags (kw_stop (plain_groups 2))) (init 0)
  = (init 0, Raise TypeError).
Proof.
  apply (missing_tag_lists (control_plane prompt) decimal never_equal
                           (kw_stop (plain_groups 2)) (init 0)).
Defined.

(** ** Discovery *)

Lemma jmes_discovery_tagged tagname resp d :
  d ∈ jmes_discovery tagname resp ->
  exists l, Tags d = Some l /\ tagname ∈ map Key l.
Proof.
  unfold jmes_discovery. intros Hd.
  apply list_elem_of_omap in Hd as (p & Hp & Hd).
  apply list_elem_of_In, filter_In in Hp as [_ Htag].
  unfold as_descr in Hd. destruct (sel_tags p) as [l |]; [| done].
  injection Hd as <-. exists l. split; [done |].
  unfold has_key, mem in Htag. by apply bool_decide_eq_true in Htag.
Qed.

Lemma jmes_discovery_app tagname (a b : list asg_raw) :
  jmes_discovery tagname (a ++ b)
  = jmes_discovery tagname a ++ jmes_discovery tagname b.
Proof.
  unfold jmes_discovery. by rewrite map_app, !List.filter_app, omap_app.
Qed.

Lemma jmes_discovery_carries tagname (resp : list asg_raw) :
  Forall2 (fun g d => carries tagname g
                      /\ as_descr (project_discovery g) = Some d)
          (filter (carries tagname) resp) (jmes_discovery tagname resp).
Proof.
  induction resp as [| g resp IH]; [constructor |].
  change (g :: resp) with ([g] ++ resp).
  rewrite jmes_discovery_app, filter_app. apply Forall2_app; [| exact IH].
  unfold jmes_discovery, carries, as_descr, project_discovery, has_key, mem.
  cbn [map List.filter sel_tags].
  destruct (raw_tags g) as [[| t l] |] eqn:Htags.
  - rewrite filter_cons_False; [constructor |].
    unfold carries. rewrite Htags. apply not_elem_of_nil.
  - cbn [List.filter sel_tags].
    destruct (decide (tagname ∈ map Key (t :: l))) as [Hin | Hout].
    + rewrite (bool_decide_eq_true_2 _ Hin).
      rewrite filter_cons_True by (unfold carries; by rewrite Htags).
      rewrite filter_nil. cbn [omap list_omap sel_tags].
      constructor; [| constructor]. split; by rewrite Htags.
    + rewrite (bool_decide_eq_false_2 _ Hout).
      rewrite filter_cons_False by (unfold carries; by rewrite Htags).
      constructor.
  - rewrite filter_cons_False; [constructor |].
    unfold carries. rewrite ?Htags. tauto.
Qed.

Lemma record_describes tagname (g : asg_raw) d r :
  carries tagname g ->
  as_descr (project_discovery g) = Some d ->
  record_of tagname d r ->
  describes tagname g r.
Proof.
  unfold carries, as_descr, project_discovery, record_of. cbn [sel_tags].
  intros Hcar Hd Hr. destruct (raw_tags g) as [tags |] eqn:Htags; [| done].
  injection Hd as <-. specialize (Hr (init 0)).
  injection Hr as <-.
  pose proof (in_service_zero (raw_instances g)) as Hzero.
  cbn [sel_name sel_desired_capacity sel_min_size sel_instance_number
       INST_ID INST_NAME INST_ASG_DESIRED_CAPACITY INST_ASG_MIN_SIZE
       INST_SCHEDULE INST_STATE AutoScalingGroupName DesiredCapacity MinSize
       InstanceNumber Tags].
  repeat (split; [reflexivity |]).
  split; [| split].
  - destruct (proj1 (tag_value_is_Some tags tagname) Hcar) as [v Hv].
    exists tags, v. by repeat split.
  - case_bool_decide as Hn; [by split; [intros _; apply Hzero |] |].
    split; [discriminate | intros Hno; by apply Hzero in Hno].
  - case_bool_decide as Hn.
    + split; [discriminate |]. intros Hin. by apply Hzero in Hn.
    + split; [intros _ | done].
      destruct (decide ("InService" ∈ raw_instances g)) as [| Hno]; [done |].
      by apply Hzero in Hno.
Qed.

Lemma Forall2_compose {A B C} (P : A -> B -> Prop) (Q : B -> C -> Prop)
      (R : A -> C -> Prop) (l : list A) (k : list B) (m : list C) :
  (forall x y z, P x y -> Q y z -> R x z) ->
  Forall2 P l k -> Forall2 Q k m -> Forall2 R l m.
Proof.
  intros HR Hlk. revert m.
  induction Hlk as [| x y l k Hxy _ IH]; intros m Hkm; inversion Hkm; subst;
    constructor; eauto.
Qed.

Section DiscoveryFacts.
Context {W : Type}.
Variable describe_page :
  option string -> W -> W * result (list asg_raw * option string).
Variable logger_debug : string -> list arg -> W -> W.
Variable select_unquoted :
  string -> list asg_raw -> nat * list asg_data -> M (W:=W) (nat * list asg_data).
Implicit Types (s : state W) (acc : nat * list asg_data).

Lemma select_instance_data_selected P Y asg tagname :
  (forall d, P (Log INFO "Displaying asg data {}" [AData d])) ->
  (exists l, Tags asg = Some l /\ tagname ∈ map Key l) ->
  within (W:=W) P Y selected (_select_instance_data asg tagname).
Proof.
  intros HP (l & Hl & Htag). unfold _select_instance_data. cbv zeta.
  apply within_bind_any; [by apply within_log | intros _].
  apply within_ret. split.
  - unfold is_in_schedulable_state. cbn [INST_STATE].
    by destruct (bool_decide (InstanceNumber asg = 0)).
  - cbn [INST_SCHEDULE]. rewrite Hl. by apply tag_value_is_Some.
Qed.

Lemma select_one_counts tagname acc asg :
  (exists l, Tags asg = Some l /\ tagname ∈ map Key l) ->
  acc.1 = length acc.2 -> Forall selected acc.2 ->
  within (not_warning DEBUG_SKIPPED_ASG_INSTANCE) (fun _ => False)
         (fun acc' => acc'.1 = length acc'.2 /\ Forall selected acc'.2)
         (select_one logger_debug tagname acc asg).
Proof.
  intros Htag Hn Hall. unfold select_one. destruct acc as [n l]. simpl in *.
  eapply within_bind;
    [apply select_instance_data_selected; [done | exact Htag] |].
  intros d Hd. pose proof Hd as [Hstate _]. rewrite Hstate.
  apply within_bind_any; [apply within_on_world | intros _].
  apply within_ret. simpl. rewrite length_app. simpl. split; [lia |].
  apply Forall_app. split; [done | by constructor].
Qed.

Lemma fetch_pages_counts fuel tagname token acc :
  quotable tagname = true ->
  acc.1 = length acc.2 -> Forall selected acc.2 ->
  within (not_warning DEBUG_SKIPPED_ASG_INSTANCE) (fun _ => False)
         (fun r => match r with
                   | Some acc' => acc'.1 = length acc'.2 /\ Forall selected acc'.2
                   | None => True
                   end)
         (fetch_pages describe_page logger_debug select_unquoted
                      fuel tagname token acc).
Proof.
  intros Hq. revert token acc.
  induction fuel as [| fuel IH]; intros token acc Hn Hall; simpl.
  - by apply within_ret.
  - apply within_bind_any; [apply within_on_world | intros [page next]].
    rewrite Hq. eapply within_bind.
    + apply within_for_acc
        with (I := fun acc' => acc'.1 = length acc'.2 /\ Forall selected acc'.2);
        [done |].
      intros acc' asg [Hn' Hall'] Hasg.
      apply select_one_counts; [| done | done].
      by eapply jmes_discovery_tagged.
    + intros acc' [Hn' Hall']. simpl. destruct next as [t |].
      * by apply IH.
      * by apply within_ret.
Qed.

Lemma get_schedulable_instances_run fuel kw s :
  get_schedulable_instances describe_page logger_debug select_unquoted fuel kw s
  = match fetch_pages describe_page logger_debug select_unquoted fuel
                      (tag_name (DISCOVERY_CONFIG kw)) None (0, [])
                      (St (world s)
                          (trace s ++ [Log INFO INF_FETCHING_ASG_INSTANCES
                                           [AStr (DISCOVERY_ACCOUNT kw);
                                            AStr (DISCOVERY_REGION kw)]])
                          (yielded s)) with
    | (s1, Ok (Some (n, l))) =>
        (St (world s1)
            (trace s1 ++ [Log INFO INF_FETCHED_ASG_INSTANCES
                              [AVal (PInt (Z.of_nat n));
                               AVal (PInt (Z.of_nat (length l)))]])
            (yielded s1), Ok (Some l))
    | (s1, Ok None) => (s1, Ok None)
    | (s1, Raise e) => (s1, Raise e)
    end.
Proof.
  unfold get_schedulable_instances. cbv zeta.
  unfold bind at 1, log, emit. cbn [fst snd world trace yielded]. unfold bind.
  by destruct (fetch_pages _ _ _ _ _ _ _ _) as [s1 [[[n l] |] | e]].
Qed.

(** X21. For a tag name that holds no apostrophe and no backslash: when
    discovery returns, every record it returns is in a schedulable state
    and carries a schedule name; no group was skipped: no skip warning
    was logged, and the closing log record gives the number of records
    returned as the number fetched and as the number selected. *)
Theorem discovery_selects_every_group fuel kw s l :
  let out := get_schedulable_instances describe_page logger_debug
                                       select_unquoted fuel kw s in
  quotable (tag_name (DISCOVERY_CONFIG kw)) = true ->
  out.2 = Ok (Some l) ->
  Forall selected l
  /\ yielded out.1 = yielded s
  /\ exists new,
       trace out.1
       = trace s ++ new
         ++ [Log INFO INF_FETCHED_ASG_INSTANCES
                 [AVal (PInt (Z.of_nat (length l)));
                  AVal (PInt (Z.of_nat (length l)))]]
       /\ Forall (not_warning DEBUG_SKIPPED_ASG_INSTANCE) new.
Proof.
  cbv zeta. intros Hq. rewrite get_schedulable_instances_run.
  match goal with |- context [fetch_pages _ _ _ _ _ _ _ ?s0] =>
    destruct (fetch_pages_counts fuel (tag_name (DISCOVERY_CONFIG kw)) None
                                 (0, []) Hq eq_refl (Forall_nil_2 _) s0)
      as ((new & Ht & Hnew) & (ys & Hy & Hys) & HQ) end.
  destruct (fetch_pages _ _ _ _ _ _ _ _) as [s1 [[[n l'] |] | e]];
    cbn [fst snd world trace yielded] in *; try done.
  intros [= <-]. destruct (HQ _ eq_refl) as [Hn Hall]. simpl in Hn, Hall. subst n.
  destruct ys as [| y ys]; [| by inversion Hys]. rewrite app_nil_r in Hy.
  split; [done | split; [done |]].
  exists (Log INFO INF_FETCHING_ASG_INSTANCES
              [AStr (DISCOVERY_ACCOUNT kw); AStr (DISCOVERY_REGION kw)] :: new).
  split; [| by constructor].
  rewrite Ht. by rewrite <- !app_assoc.
Qed.
End DiscoveryFacts.

Section DiscoveryFailures.
Context {W : Type}.
Variable describe_page :
  option string -> W -> W * result (list asg_raw * option string).
Variable logger_debug : string -> list arg -> W -> W.
Variable select_unquoted :
  string -> list asg_raw -> nat * list asg_data -> M (W:=W) (nat * list asg_data).


End DiscoveryFailures.


Lemma concat_drop {A} (ls : list (list A)) i :
  i < length ls ->
  concat (drop i ls) = nth i ls [] ++ concat (drop (S i) ls).
Proof.
  revert i. induction ls as [| p ps IH]; intros i Hi; [simpl in Hi; lia |].
  destruct i as [| i]; [by rewrite drop_0 |].
  cbn [drop nth]. apply IH. simpl in Hi. lia.
Qed.

Section ServedPages.
Variable pages : list (list asg_raw).
Variable tagname : string.
Variable select_unquoted :
  string -> list asg_raw -> nat * list asg_data
  -> M (W:=nat) (nat * list asg_data).
Hypothesis tagname_quotable : quotable tagname = true.
Implicit Types (s : state nat) (acc : nat * list asg_data).

Lemma token_of_length i : String.length (token_of i) = i.
Proof. induction i as [| i IH]; simpl; [done | by rewrite IH]. Qed.

Lemma select_instance_data_pure (asg : asg_descr) :
  exists r,
    is_in_schedulable_state r = true
    /\ forall s,
        _select_instance_data asg tagname s
        = (St (world s)
              (trace s ++ [Log INFO "Displaying asg data {}" [AData r]])
              (yielded s), Ok r).
Proof.
  eexists. split; [| intros s; reflexivity].
  unfold is_in_schedulable_state. cbn [INST_STATE].
  by destruct (bool_decide (InstanceNumber asg = 0)).
Qed.

Lemma select_one_run acc d s :
  exists r s',
    select_one drop_debug tagname acc d s = (s', Ok (acc.1 + 1, acc.2 ++ [r]))
    /\ record_of tagname d r /\ world s' = world s.
Proof.
  destruct (select_instance_data_pure d) as (r & Hstate & Hrun).
  exists r. eexists. unfold select_one. destruct acc as [n l].
  unfold bind at 1. rewrite Hrun, Hstate. split; [reflexivity |].
  split; [| done]. intros s0. by rewrite Hrun.
Qed.

Lemma for_acc_select_run (ds : list asg_descr) acc s :
  exists rs s',
    for_acc ds acc (select_one drop_debug tagname) s
    = (s', Ok (acc.1 + length ds, acc.2 ++ rs))
    /\ Forall2 (record_of tagname) ds rs /\ world s' = world s.
Proof.
  revert acc s. induction ds as [| d ds IH]; intros acc s.
  - exists [], s. simpl. rewrite Nat.add_0_r, app_nil_r.
    split; [by destruct acc | split; [constructor | done]].
  - destruct (select_one_run acc d s) as (r & s1 & Hone & Hr & Hw1).
    destruct (IH (acc.1 + 1, acc.2 ++ [r]) s1) as (rs & s2 & Hrest & Hrs & Hw2).
    exists (r :: rs), s2. simpl. unfold bind. rewrite Hone, Hrest. simpl.
    rewrite <- app_assoc. simpl.
    replace (acc.1 + 1 + length ds) with (acc.1 + S (length ds)) by lia.
    split; [done | split; [by constructor | congruence]].
Qed.

Lemma fetch_pages_served fuel i acc s :
  i < length pages \/ i = 0 ->
  length pages - i <= fuel -> 0 < fuel ->
  exists rs s',
    fetch_pages (serve_pages pages) drop_debug select_unquoted fuel tagname
                (match i with 0 => None | S _ => Some (token_of i) end) acc s
    = (s', Ok (Some (acc.1 + length rs, acc.2 ++ rs)))
    /\ Forall2 (record_of tagname)
               (jmes_discovery tagname (concat (drop i pages))) rs
    /\ world s' = world s + Nat.max 1 (length pages - i).
Proof.
  revert i acc s. induction fuel as [| fuel IH]; intros i acc s Hi Hfuel Hpos;
    [lia |].
  cbn [fetch_pages]. rewrite tagname_quotable.
  unfold bind at 1, on_world, serve_pages.
  assert (Hidx : match match i with 0 => None | S _ => Some (token_of i) end with
                 | Some t => String.length t
                 | None => 0
                 end = i).
  { destruct i; [done | apply token_of_length]. }
  rewrite Hidx. cbn [fst snd world trace yielded].
  set (s1 := St (S (world s)) (trace s) (yielded s)).
  destruct (for_acc_select_run (jmes_discovery tagname (nth i pages [])) acc s1)
    as (rs1 & s2 & Hpage & Hrs1 & Hw2).
  unfold bind. rewrite Hpage. cbn [fst snd].
  destruct (decide (S i < length pages)) as [Hmore | Hlast].
  - rewrite bool_decide_eq_true_2 by done.
    destruct (IH (S i) (acc.1 + length (jmes_discovery tagname (nth i pages [])),
                        acc.2 ++ rs1) s2)
      as (rs2 & s3 & Hrest & Hrs2 & Hw3); [lia | lia | lia |].
    exists (rs1 ++ rs2), s3. unfold serve_pages in Hrest.
    rewrite Hrest. cbn [fst snd].
    rewrite <- app_assoc, length_app.
    rewrite (Forall2_length _ _ _ Hrs1). split; [by rewrite Nat.add_assoc |].
    split.
    + rewrite concat_drop by lia. rewrite jmes_discovery_app.
      by apply Forall2_app.
    + rewrite Hw3, Hw2. subst s1. cbn [world]. lia.
  - rewrite bool_decide_eq_false_2 by done.
    exists rs1, s2. unfold ret. split; [| split].
    + by rewrite (Forall2_length _ _ _ Hrs1).
    + destruct (decide (i < length pages)) as [Hin | Hout].
      * rewrite concat_drop by done. rewrite (drop_ge pages (S i)) by lia.
        cbn [concat]. by rewrite app_nil_r.
      * rewrite drop_ge by lia. rewrite nth_overflow in Hrs1 by lia.
        exact Hrs1.
    + rewrite Hw2. subst s1. cbn [world]. lia.
Qed.

Lemma fetch_pages_short fuel i acc s :
  i + fuel < length pages ->
  (fetch_pages (serve_pages pages) drop_debug select_unquoted fuel tagname
               (match i with 0 => None | S _ => Some (token_of i) end) acc s).2
  = Ok None.
Proof.
  revert i acc s. induction fuel as [| fuel IH]; intros i acc s Hshort; [done |].
  cbn [fetch_pages]. rewrite tagname_quotable. unfold bind at 1, on_world.
  assert (Hpage : forall w,
             serve_pages pages (match i with 0 => None | S _ => Some (token_of i) end) w
             = (S w, Ok (nth i pages [], Some (token_of (S i))))).
  { intros w. unfold serve_pages.
    replace (match match i with 0 => None | S _ => Some (token_of i) end with
             | Some t => String.length t
             | None => 0
             end) with i by (destruct i; [done | by rewrite token_of_length]).
    by rewrite bool_decide_eq_true_2 by lia. }
  rewrite Hpage. cbn [fst snd world trace yielded].
  destruct (for_acc_select_run (jmes_discovery tagname (nth i pages [])) acc
              (St (S (world s)) (trace s) (yielded s)))
    as (rs1 & s2 & Hacc & _ & _).
  unfold bind. rewrite Hacc. cbn [fst snd].
  apply (IH (S i)). lia.
Qed.
End ServedPages.

(** X23. Against a control plane that serves a list of pages, and for a tag
    name that holds no apostrophe and no backslash, discovery with fuel
    for every page returns one record for every group of the pages that
    is described with tags and has the schedule tag among them, in the
    order of the pages, and no other record: the record has the name
    and the sizes of its group, the value of the schedule tag as
    schedule, and the state stopped when no instance of the group is in
    service and running when one is.  It makes one call for each page
    (one call when there is no page).  With fuel for fewer pages it has
    not returned. *)
Theorem discovery_returns_the_tagged_groups
        (pages : list (list asg_raw)) select_unquoted fuel kw (w : nat) :
  let tagname := tag_name (DISCOVERY_CONFIG kw) in
  let out := get_schedulable_instances (serve_pages pages) drop_debug
                                       select_unquoted fuel kw (init w) in
  quotable tagname = true ->
  (0 < fuel -> length pages <= fuel ->
   exists l,
     out.2 = Ok (Some l)
     /\ Forall2 (describes tagname)
                (filter (carries tagname) (concat pages)) l
     /\ world out.1 = w + Nat.max 1 (length pages))
  /\ (fuel < length pages -> out.2 = Ok None).
Proof.
  cbv zeta. intros Hq. rewrite get_schedulable_instances_run. split.
  - intros Hpos Hfuel.
    match goal with |- context [fetch_pages _ _ _ _ _ _ _ ?s0] =>
      destruct (fetch_pages_served pages (tag_name (DISCOVERY_CONFIG kw))
                                   select_unquoted Hq fuel 0 (0, []) s0)
        as (rs & s1 & Hrun & Hrs & Hw); [by right | lia | lia |] end.
    cbn [fst snd] in Hrun. rewrite Hrun. exists rs. cbn [fst snd world].
    rewrite drop_0 in Hrs. split; [done | split].
    + eapply Forall2_compose;
        [| apply jmes_discovery_carries | exact Hrs].
      intros g d r [Hcar Hd] Hr. by eapply record_describes.
    + rewrite Hw. cbn [world init]. by rewrite Nat.sub_0_r.
  - intros Hshort.
    match goal with |- context [fetch_pages _ _ _ _ _ _ _ ?s0] =>
      pose proof (fetch_pages_short pages (tag_name (DISCOVERY_CONFIG kw))
                                    select_unquoted Hq fuel 0 (0, []) s0 Hshort)
        as Hrun end.
    by destruct (fetch_pages _ _ _ _ _ _ _ _) as [s1 [[[n l] |] | e]].
Qed.

Lemma discovery_returns_the_tagged_groups_witness :
  quotable (tag_name (DISCOVERY_CONFIG the_discovery)) = true
  /\ 0 < 2 /\ length two_pages <= 2
  /\ exists l,
       (get_schedulable_instances (serve_pages two_pages) drop_debug
                                  rejects_unquoted 2 the_discovery (init 0)).2
       = Ok (Some l)
       /\ map INST_ID l = ["asg-A"; "asg-C"]
       /\ map INST_STATE l = ["running"; "stopped"].
Proof.
  assert (Hq : quotable (tag_name (DISCOVERY_CONFIG the_discovery)) = true)
    by reflexivity.
  assert (H1 : 0 < 2) by lia.
  assert (H2 : length two_pages <= 2) by (simpl; lia).
  split; [exact Hq | split; [exact H1 | split; [exact H2 |]]].
  destruct (discovery_returns_the_tagged_groups
              two_pages rejects_unquoted 2 the_discovery 0 Hq)
    as [Hall _].
  destruct (Hall H1 H2) as (l & Hl & _).
  exists l. split; [exact Hl |].
  assert (He : (get_schedulable_instances (serve_pages two_pages) drop_debug
                                          rejects_unquoted 2
                                          the_discovery (init 0)).2
               = Ok (Some l)) by exact Hl.
  vm_compute in He. injection He as <-. split; reflexivity.
Defined.

Lemma discovery_selects_every_group_witness :
  quotable (tag_name (DISCOVERY_CONFIG the_discovery)) = true
  /\ exists l,
       (get_schedulable_instances (serve_pages two_pages) drop_debug
                                  rejects_unquoted 2 the_discovery (init 0)).2
       = Ok (Some l)
       /\ Forall selected l.
Proof.
  assert (Hq : quotable (tag_name (DISCOVERY_CONFIG the_discovery)) = true)
    by reflexivity.
  split; [exact Hq |].
  eexists.
  assert (H : (get_schedulable_instances (serve_pages two_pages) drop_debug
                                          rejects_unquoted 2
                                          the_discovery (init 0)).2
              = Ok (Some _)) by (vm_compute; reflexivity).
  split; [exact H |].
  exact (proj1 (discovery_selects_every_group
                  (serve_pages two_pages) drop_debug rejects_unquoted
                  2 the_discovery (init 0) _ Hq H)).
Defined.
